(** * PhoneArd TestRoutine: test runner and flash CRC engine

    A shallow embedding of [examples/TestRoutine/TestRoutine.ino]:
    the bit-level CRC routine [runCRCWord], the two flash checksum
    loops [calcCRCFlash] and [calcCRCFlashBurst], the firmware-end scan
    of [startLCDTest], the test runner [doTest] with its SELECT-button
    gate, and the end-of-run report of [setup]. *)

From stdpp Require Import base numbers list strings option.
From Stdlib Require Import Ascii.
From Equations Require Import Equations.

Local Open Scope Z_scope.

(** ** 32-bit unsigned arithmetic ([uint32_t]) *)

Module U32.

Definition modulus : Z := 4294967296.

(** Reduction of a mathematical integer to its [uint32_t] value. *)
Definition wrap (x : Z) : Z := x mod modulus.

Definition add (x y : Z) : Z := wrap (x + y).
Definition sub (x y : Z) : Z := wrap (x - y).

(** [~x] on a [uint32_t]. *)
Definition not (x : Z) : Z := wrap (Z.lnot x).

Definition in_range (x : Z) : Prop := 0 <= x < modulus.

End U32.

(** ** The bit-level routine *)

Module CRCWord.

Definition POLY : Z := 0xEDB88320.

(** One pass of the body of the [for (k = 16; k; k--)] loop of
    [runCRCWord], for the current value of [k]. *)
Definition runCRCWord_body (k : Z) (st : Z * Z) : Z * Z :=
  let '(wordValue, crc) := st in
  let '(wordValue, crc) :=
    if Z.land k 0x7 =? 0
    then (Z.shiftr wordValue 8, Z.lxor crc (Z.land wordValue 0xFF))
    else (wordValue, crc) in
  let m := Z.land crc 0x1 in
  let crc := Z.shiftr crc 1 in
  let crc := if m =? 0 then crc else Z.lxor crc POLY in
  (wordValue, crc).

(** The loop itself: [k] counts down and the loop stops at [k = 0]. *)
Fixpoint runCRCWord_loop (k : nat) (st : Z * Z) : Z * Z :=
  match k with
  | O => st
  | S k' => runCRCWord_loop k' (runCRCWord_body (Z.of_nat k) st)
  end.

(** [void runCRCWord(uint16_t wordValue, uint32_t* crc)]: the new value
    of [*crc]. *)
Definition runCRCWord (wordValue crc : Z) : Z :=
  snd (runCRCWord_loop 16 (wordValue, crc)).

(** *** Reference CRC-32 (ISO-HDLC), byte oriented

    The textbook definition of the reflected CRC-32: register preset to
    all ones, each byte exclusive-ored into the low end of the register
    followed by eight conditional shift steps with the reversed
    polynomial, final complement. *)

Definition crc32_bit (c : Z) : Z :=
  if Z.testbit c 0 then Z.lxor (Z.shiftr c 1) POLY else Z.shiftr c 1.

Definition crc32_byte (c b : Z) : Z :=
  Nat.iter 8 crc32_bit (Z.lxor c b).

Definition crc32 (bytes : list Z) : Z :=
  Z.lxor (fold_left crc32_byte bytes 0xFFFFFFFF) 0xFFFFFFFF.

(** The two bytes of a 16-bit word, low byte first. *)
Definition le_bytes (w : Z) : list Z :=
  [Z.land w 0xFF; Z.land (Z.shiftr w 8) 0xFF].

(** The accumulator protocol of the callers: the seed is inverted, the
    words are fed in order, the result is inverted. *)
Definition feed_words (ws : list Z) (seed : Z) : Z :=
  U32.not (fold_left (fun c w => runCRCWord w c) ws (U32.not seed)).

End CRCWord.

Import CRCWord.

(** ** Flash checksums *)

Module Flash.

Section WithFlash.

(** The program memory as [pgm_read_word_far] sees it: the 16-bit word
    found at a 32-bit byte address. *)
Variable pgm_read_word_far : Z -> Z.

(** Every access to the flash is logged: the addresses handed to
    [pgm_read_word_far], oldest first. *)
Definition read (address : Z) (log : list Z) : Z * list Z :=
  (pgm_read_word_far address, log ++ [address]).

(** The [do { ... } while (--address_ctr)] loop of [calcCRCFlash]. The
    counter is decremented modulo 2^32 and the loop is left when the
    decremented counter is zero. *)
Equations? (noind) calcCRCFlash_loop (address address_ctr crc : Z) (log : list Z)
  : Z * list Z by wf (Z.to_nat (U32.sub address_ctr 1)) lt :=
calcCRCFlash_loop address address_ctr crc log
  with Z.eq_dec (U32.sub address_ctr 1) 0 => {
  | left _ :=
      let '(w, log) := read address log in
      (runCRCWord w crc, log);
  | right _ :=
      let '(w, log) := read address log in
      calcCRCFlash_loop (U32.add address 2) (U32.sub address_ctr 1)
                        (runCRCWord w crc) log }.
Proof.
  match goal with H : _ <> 0 |- _ => revert H end.
  abstract (
    unfold U32.sub, U32.wrap, U32.modulus; intros Hctr;
    pose proof (Z.mod_pos_bound (address_ctr - 1) 4294967296 ltac:(lia));
    rewrite (Z.mod_small ((address_ctr - 1) mod 4294967296 - 1)); lia).
Qed.

(** [uint32_t calcCRCFlash(start_addr, end_addr, start_crc)], together
    with the log of its flash accesses. *)
Definition calcCRCFlash_run (start_addr end_addr start_crc : Z)
  : Z * list Z :=
  let crc := U32.not start_crc in
  let address := start_addr in
  let address_ctr := U32.sub end_addr start_addr / 2 in
  let '(crc, log) := calcCRCFlash_loop address address_ctr crc [] in
  (U32.not crc, log).

Definition calcCRCFlash (start_addr end_addr start_crc : Z) : Z :=
  fst (calcCRCFlash_run start_addr end_addr start_crc).

(** *** The burst variant *)

(** [sizeof(buff)/sizeof(buff[0])] for [uint16_t buff[8]]. *)
Definition buff_len : nat := 8.

(** The locals of [calcCRCFlashBurst] that the refill touches: the read
    address, the buffer, the cursor [p] (as an offset from [buff]) and
    the access log. *)
Record burst : Type := Burst {
  b_address : Z;
  b_buff : list Z;
  b_p : nat;
  b_log : list Z
}.

(** [buff[k] = pgm_read_word_far(address); address += 2;] *)
Definition fill_body (k : nat) (s : burst) : burst :=
  let '(w, log) := read (b_address s) (b_log s) in
  {| b_address := U32.add (b_address s) 2;
     b_buff := <[k := w]> (b_buff s);
     b_p := b_p s;
     b_log := log |}.

(** [for (uint8_t k = 0; k < buff_len; k++) ...], started at [k]. *)
Fixpoint fill_loop (fuel k : nat) (s : burst) : burst :=
  match fuel with
  | O => s
  | S fuel' =>
      if (k <? buff_len)%nat then fill_loop fuel' (S k) (fill_body k s)
      else s
  end.

(** [if (p == buff+buff_len) { ...refill...; p = buff; }] *)
Definition refill (s : burst) : burst :=
  if (b_p s =? buff_len)%nat then
    let s := fill_loop buff_len 0 s in
    {| b_address := b_address s; b_buff := b_buff s;
       b_p := 0; b_log := b_log s |}
  else s.

(** The word under the cursor and the state after [p++]. *)
Definition fetch (s : burst) : Z * burst :=
  (b_buff s !!! b_p s,
   {| b_address := b_address s; b_buff := b_buff s;
      b_p := S (b_p s); b_log := b_log s |}).

(** The body of the loop of [calcCRCFlashBurst]: refill when the cursor
    is at the end of the buffer, then feed the word under the cursor to
    [runCRCWord] and advance the cursor. *)
Definition burst_body (s : burst) (crc : Z) : burst * Z :=
  let '(w, s) := fetch (refill s) in
  (s, runCRCWord w crc).

(** The [do { ... } while (--address_ctr)] loop of [calcCRCFlashBurst].
    The body stays folded while the recursion is set up. *)
#[local] Opaque burst_body.

Equations? (noind) calcCRCFlashBurst_loop (s : burst) (address_ctr crc : Z)
  : Z * burst by wf (Z.to_nat (U32.sub address_ctr 1)) lt :=
calcCRCFlashBurst_loop s address_ctr crc
  with Z.eq_dec (U32.sub address_ctr 1) 0 => {
  | left _ :=
      (snd (burst_body s crc), fst (burst_body s crc));
  | right _ :=
      calcCRCFlashBurst_loop (fst (burst_body s crc))
        (U32.sub address_ctr 1) (snd (burst_body s crc)) }.
Proof.
  match goal with H : _ <> 0 |- _ => revert H end.
  abstract (
    unfold U32.sub, U32.wrap, U32.modulus; intros Hctr;
    pose proof (Z.mod_pos_bound (address_ctr - 1) 4294967296 ltac:(lia));
    rewrite (Z.mod_small ((address_ctr - 1) mod 4294967296 - 1)); lia).
Qed.

#[local] Transparent burst_body.

(** [uint32_t calcCRCFlashBurst(start_addr, end_addr, start_crc)] with
    its access log. The buffer is a local array without initialiser;
    [buff0] stands for whatever it holds on entry. *)
Definition calcCRCFlashBurst_from (buff0 : list Z)
    (start_addr end_addr start_crc : Z) : Z * list Z :=
  let crc := U32.not start_crc in
  let address := start_addr in
  let address_ctr := U32.sub end_addr start_addr / 2 in
  let s := {| b_address := address; b_buff := buff0;
              b_p := buff_len; b_log := [] |} in
  let '(crc, s) := calcCRCFlashBurst_loop s address_ctr crc in
  (U32.not crc, b_log s).

Definition calcCRCFlashBurst_run (start_addr end_addr start_crc : Z)
  : Z * list Z :=
  calcCRCFlashBurst_from (replicate buff_len 0) start_addr end_addr start_crc.

Definition calcCRCFlashBurst (start_addr end_addr start_crc : Z) : Z :=
  fst (calcCRCFlashBurst_run start_addr end_addr start_crc).

(** *** The firmware-end scan of [startLCDTest] *)

Definition FLASH_TOP : Z := 0x40000.
Definition FIRMWARE_START : Z := 0x3E000.
Definition ERASED : Z := 0xFFFF.

(** [do { if (pgm_read_word_far(end_address-2) != 0xFFFF) break;
         end_address -= 2; } while (end_address != 0x3E000);]
    Each unit of fuel pays for one pass of the body. *)
Fixpoint scan_loop (fuel : nat) (end_address : Z) (log : list Z)
  : option (Z * list Z) :=
  match fuel with
  | O => None
  | S fuel' =>
      let '(w, log) := read (U32.sub end_address 2) log in
      if negb (w =? ERASED) then Some (end_address, log)
      else
        let end_address := U32.sub end_address 2 in
        if negb (end_address =? FIRMWARE_START)
        then scan_loop fuel' end_address log
        else Some (end_address, log)
  end.

(** The scan as [startLCDTest] starts it, with fuel for every word
    between the two fixed addresses. *)
Definition scan_fuel : nat := Z.to_nat ((FLASH_TOP - FIRMWARE_START) / 2).

Definition firmware_end_run : option (Z * list Z) :=
  scan_loop scan_fuel FLASH_TOP [].

Definition firmware_end : option Z := fst <$> firmware_end_run.

(** [const uint32_t testroutine_length = 20000;] *)
Definition testroutine_length : Z := 20000.

(** The three checksums [startLCDTest] computes:
    [(crc, service_crc, testroutine_crc)]. *)
Definition startLCDTest_crcs : option (Z * Z * Z) :=
  end_address ← firmware_end;
  let service_crc := calcCRCFlash 0x3E000 0x3E100 0 in
  let crc := calcCRCFlash 0x3E100 end_address service_crc in
  let testroutine_crc := calcCRCFlashBurst 0 testroutine_length 0 in
  Some (crc, service_crc, testroutine_crc).

End WithFlash.
End Flash.

(** ** The test runner *)

Module Runner.

(** [TestResult.h] is not part of the sketch; the three fields are the
    ones the sketch uses. *)
Record TestResult : Type := {
  device : string;
  success : bool;
  status : string
}.

Inductive color_t : Type := BLACK | RED | GREEN | YELLOW.

(** What the sketch sends to the display. *)
Inductive display_op : Type :=
| FillRect (x y w h : Z) (color : color_t)
| SetTextSize (n : Z)
| SetTextColor (color : color_t)
| SetCursor (x y : Z)
| DisplayPrint (text : string)
| ShowMessage (text : string).

(** What the sketch sends to [Serial]. *)
Inductive serial_op : Type :=
| Print (text : string)
| Println (text : string)
| Flush.

(** What one access to the hardware finds: the millisecond clock and the
    level of the SELECT button at that moment. *)
Record sample : Type := Sample {
  at_ms : Z;
  select : bool
}.

(** The world outside the sketch: the samples still to come, and what has
    been written to the display and to the serial port, oldest first. *)
Record world : Type := World {
  samples : list sample;
  display : list display_op;
  serial : list serial_op
}.

(** The globals [testCnt] and [test_results] with the world. *)
Record state : Type := State {
  testCnt : Z;
  test_results : list TestResult;
  hw : world
}.

(** A computation either completes, or is still polling when the samples
    run out, or leaves the behaviour defined by C (a store outside an
    array). A computation that is still polling has come to a halt
    at some point [at_halt]: for the sketch this is the state it has
    reached, with everything it has written so far. *)
Inductive outcome_at (H A : Type) : Type :=
| Done (a : A)
| Stalled (at_halt : H)
| Undefined.
Arguments Done {H A} a.
Arguments Stalled {H A} at_halt.
Arguments Undefined {H A}.

(** The outcome of a loop as a function of the samples alone: when the
    samples run out there is nothing more to tell. *)
Abbreviation outcome := (outcome_at unit).
Abbreviation Blocked := (Stalled tt).

Definition M (A : Type) : Type := state -> outcome_at state (A * state).

Definition ret {A} (a : A) : M A := fun st => Done (a, st).

Definition bind {A B} (m : M A) (k : A -> M B) : M B :=
  fun st =>
    match m st with
    | Done (a, st') => k a st'
    | Stalled halted => Stalled halted
    | Undefined => Undefined
    end.

Notation "x <- m ;; k" := (bind m (fun x => k))
  (at level 100, m at next level, right associativity).
Notation "m ;;; k" := (bind m (fun _ => k))
  (at level 100, right associativity).

Definition undefined {A} : M A := fun _ => Undefined.

Definition with_hw (f : world -> world) : M unit :=
  fun st => Done (tt, {| testCnt := testCnt st;
                         test_results := test_results st;
                         hw := f (hw st) |}).

Definition to_display (ops : list display_op) : M unit :=
  with_hw (fun w => {| samples := samples w;
                       display := display w ++ ops;
                       serial := serial w |}).

Definition to_serial (ops : list serial_op) : M unit :=
  with_hw (fun w => {| samples := samples w;
                       display := display w;
                       serial := serial w ++ ops |}).

Definition set_samples (tr : list sample) : M unit :=
  with_hw (fun w => {| samples := tr;
                       display := display w;
                       serial := serial w |}).

Definition showMessage (text : string) : M unit :=
  to_display [ShowMessage text].

(** The state in which the sketch waits for a sample that does not come:
    all samples are used up, the rest is as it was. *)
Definition out_of_samples (st : state) : state :=
  {| testCnt := testCnt st;
     test_results := test_results st;
     hw := {| samples := [];
              display := display (hw st);
              serial := serial (hw st) |} |}.

(** [millis()], an [unsigned long]. *)
Definition millis : M Z :=
  fun st =>
    match samples (hw st) with
    | [] => Stalled (out_of_samples st)
    | s :: tr => (set_samples tr ;;; ret (U32.wrap (at_ms s))) st
    end.

Definition isSelectPressed : M bool :=
  fun st =>
    match samples (hw st) with
    | [] => Stalled (out_of_samples st)
    | s :: tr => (set_samples tr ;;; ret (select s)) st
    end.

(** [while(isSelectPressed() && (millis() - sel_start) < 1000);]
    on the samples: the samples left when the loop is over. *)
Fixpoint wait_pressed (sel_start : Z) (tr : list sample)
  : outcome (list sample) :=
  match tr with
  | [] => Blocked
  | s1 :: tr1 =>
      if select s1 then
        match tr1 with
        | [] => Blocked
        | s2 :: tr2 =>
            if U32.sub (U32.wrap (at_ms s2)) sel_start <? 1000
            then wait_pressed sel_start tr2
            else Done tr2
        end
      else Done tr1
  end.

(** [while (isSelectPressed());] on the samples. *)
Fixpoint wait_released (tr : list sample) : outcome (list sample) :=
  match tr with
  | [] => Blocked
  | s :: tr' => if select s then wait_released tr' else Done tr'
  end.

Definition polling (loop : list sample -> outcome (list sample)) : M unit :=
  fun st =>
    match loop (samples (hw st)) with
    | Done tr => set_samples tr st
    | Blocked => Stalled (out_of_samples st)
    | Undefined => Undefined
    end.

Definition NL : string := String (Ascii.ascii_of_nat 10) EmptyString.

Definition RELEASE_MESSAGE : string :=
  "Please release the SELECT button" +:+ NL +:+
  "Indicates hardware problem if not pressed".

(** The first part of [doTest], up to the end of the
    [if (isSelectPressed())] block. *)
Definition awaitRelease : M unit :=
  sel_start <- millis ;;
  polling (wait_pressed sel_start) ;;;
  pressed <- isSelectPressed ;;
  if (pressed : bool) then
    showMessage RELEASE_MESSAGE ;;;
    polling wait_released ;;;
    showMessage ""
  else ret tt.

(** [void showStatus(int index, color_t color, const char* what,
    const char* text)] *)
Definition showStatus (index : Z) (color : color_t) (what text : string)
  : M unit :=
  let w := 310 in
  let h := 13 in
  let x := 5 in
  let y := 5 + index * (h + 3) in
  to_display [FillRect x y w h color; SetTextSize 1; SetTextColor BLACK;
              SetCursor (x + 3) (y + 3);
              DisplayPrint what; DisplayPrint ": "; DisplayPrint text].

(** [TestResult test_results[15];] *)
Definition RESULTS_LEN : nat := 15.

(** [test_results[index] = result;] *)
Definition store_result (index : Z) (result : TestResult) : M unit :=
  fun st =>
    if (0 <=? index) && (index <? Z.of_nat (length (test_results st)))
    then Done (tt, {| testCnt := testCnt st;
                      test_results :=
                        <[Z.to_nat index := result]> (test_results st);
                      hw := hw st |})
    else Undefined.

Definition get_testCnt : M Z := fun st => Done (testCnt st, st).

(** [testCnt++;] *)
Definition incr_testCnt : M unit :=
  fun st => Done (tt, {| testCnt := testCnt st + 1;
                         test_results := test_results st;
                         hw := hw st |}).

(** A probe, the [testFunc] argument of [doTest]: it acts on the world
    and returns its result. *)
Definition probe : Type := world -> TestResult * world.

Definition call (testFunc : probe) : M TestResult :=
  fun st =>
    let '(r, w) := testFunc (hw st) in
    Done (r, {| testCnt := testCnt st;
                test_results := test_results st;
                hw := w |}).

(** The body of the report loop of [setup] for one recorded result;
    [test_success] is the flag of [setup], the new flag is returned. *)
Definition report_body (r : TestResult) (test_success : bool) : M bool :=
  if negb (success r) then
    (if test_success then
       to_serial [Println "Testing completed with errors.";
                  Println "Please check the following components:"]
     else ret tt) ;;;
    to_serial [Print "- "; Print (device r); Print " (";
               Print (status r); Println ")"] ;;;
    ret false
  else ret test_success.

(** [for (int i = 0; i < testCnt; i++) ...] with [n] passes to go; a
    read outside [test_results] is undefined. *)
Fixpoint report_loop (n : nat) (i : Z) (test_success : bool) : M bool :=
  match n with
  | O => ret test_success
  | S n' =>
      fun st =>
        match test_results st !! Z.to_nat i with
        | Some r =>
            (test_success <- report_body r test_success ;;
             report_loop n' (i + 1) test_success) st
        | None => Undefined
        end
  end.

(** The end of [setup], from [boolean test_success = true;] on. *)
Definition report : M unit :=
  cnt <- get_testCnt ;;
  test_success <- report_loop (Z.to_nat cnt) 0 true ;;
  if (test_success : bool)
  then to_serial [Println "Testing completed: no problems found."]
  else ret tt.

(** The lines a sequence of serial writes completes, given the text
    [cur] already on the current line. *)
Fixpoint lines_from (cur : string) (ops : list serial_op) : list string :=
  match ops with
  | [] => []
  | Print text :: ops' => lines_from (cur +:+ text) ops'
  | Println text :: ops' => (cur +:+ text) :: lines_from "" ops'
  | Flush :: ops' => lines_from cur ops'
  end.

(** The text left on the current line, not yet completed. *)
Fixpoint unfinished (cur : string) (ops : list serial_op) : string :=
  match ops with
  | [] => cur
  | Print text :: ops' => unfinished (cur +:+ text) ops'
  | Println text :: ops' => unfinished "" ops'
  | Flush :: ops' => unfinished cur ops'
  end.

Section WithTestResult.

(** [sizeof(result.device)], from the declaration of [TestResult] in
    [TestResult.h]. *)
Variable DEVICE_SIZE : nat.

(** [strcpy(result.device, what);]: the name and its terminator must fit
    the field. *)
Definition strcpy_device (result : TestResult) (what : string)
  : M TestResult :=
  if (String.length what <? DEVICE_SIZE)%nat
  then ret {| device := what;
              success := success result;
              status := status result |}
  else undefined.

(** [TestResult doTest(const char* what, testFunc)] *)
Definition doTest (what : string) (testFunc : probe) : M TestResult :=
  awaitRelease ;;;
  to_serial [Print what; Print " Testing..."; Flush] ;;;
  showMessage "" ;;;
  cnt <- get_testCnt ;;
  showStatus cnt YELLOW what "Testing..." ;;;
  result <- call testFunc ;;
  result <- strcpy_device result what ;;
  cnt <- get_testCnt ;;
  store_result cnt result ;;;
  cnt <- get_testCnt ;;
  showStatus cnt (if success result then GREEN else RED)
             what (status result) ;;;
  to_serial [Print (if success result then "  SUCCESS" else "  FAILURE");
             Print " - "; Println (status result); Flush] ;;;
  incr_testCnt ;;;
  ret result.

Section WithProbes.

(** The probes of [tests.h] and the two power-on steps of the SIM
    module. *)
Variables testScreen testConnector testFlash testBMP180 testMPU6050
          testHMC5883L testRAM testSD testMP3 testMIDI testWiFi
          testBluetooth testSIM : probe.
Variables sim_powerOnStart sim_powerOnEnd : world -> world.

(** [setup], from [Serial.println(F("Testing started."))] to its end. *)
Definition setup_tests : M unit :=
  to_serial [Println "Testing started."] ;;;
  with_hw sim_powerOnStart ;;;
  doTest "LCD Screen" testScreen ;;;
  doTest "Connector" testConnector ;;;
  doTest "Flash" testFlash ;;;
  doTest "BMP180" testBMP180 ;;;
  doTest "MPU6050" testMPU6050 ;;;
  doTest "HMC5883L" testHMC5883L ;;;
  doTest "SRAM" testRAM ;;;
  doTest "Micro-SD" testSD ;;;
  doTest "MP3" testMP3 ;;;
  doTest "MIDI" testMIDI ;;;
  doTest "WiFi" testWiFi ;;;
  doTest "Bluetooth" testBluetooth ;;;
  with_hw sim_powerOnEnd ;;;
  doTest "SIM908" testSIM ;;;
  to_serial [Println ""] ;;;
  report.

End WithProbes.

(** The globals as the sketch declares them ([int testCnt = 0;] and the
    result buffer, whose entries [blank] stands for) in a given world. *)
Definition initial_state (blank : TestResult) (w : world) : state :=
  {| testCnt := 0;
     test_results := replicate RESULTS_LEN blank;
     hw := w |}.

End WithTestResult.

End Runner.

(** ** Reference descriptions *)

Module Ref.

Import Flash Runner.

(** The number of passes of a [do { ... } while (--address_ctr)] loop
    entered with a given 32-bit counter: a counter of zero wraps and
    pays for 2^32 passes. *)
Definition passes (address_ctr : Z) : nat :=
  Z.to_nat (if address_ctr =? 0 then U32.modulus else address_ctr).

(** The address of the [i]-th word after [start], with the 32-bit
    wrap-around of [address += 2]. *)
Definition addr (start : Z) (i : nat) : Z :=
  Nat.iter i (fun a => U32.add a 2) start.

(** The addresses of [n] consecutive words, from the [i]-th on. *)
Definition word_addresses (start : Z) (i n : nat) : list Z :=
  addr start <$> seq i n.

(** Feeding the words found at a list of addresses to [runCRCWord]. *)
Definition crc_over (mem : Z -> Z) (addresses : list Z) (crc : Z) : Z :=
  fold_left (fun c a => runCRCWord (mem a) c) addresses crc.

(** The word count both checksum functions compute on entry. *)
Definition word_count (start_addr end_addr : Z) : Z :=
  U32.sub end_addr start_addr / 2.

(** The word addresses of the region from [start_addr] to [end_addr]
    (exclusive), in ascending order. *)
Definition region_words (start_addr end_addr : Z) : list Z :=
  (fun k : nat => start_addr + 2 * Z.of_nat k)
    <$> seq 0 (Z.to_nat ((end_addr - start_addr) / 2)).

(** The byte addresses a sequence of word reads fetches:
    [pgm_read_word_far] reads the byte at the address and the byte that
    follows it. *)
Definition bytes_read (log : list Z) : list Z :=
  log ≫= (fun a => [a; U32.add a 1]).

(** The cursor and buffer of the burst loop when the next word to feed
    is the [i]-th after [start]: the buffer holds the words from the
    cursor on, and the read address is just past the buffered words. *)
Definition buffered (mem : Z -> Z) (start : Z) (i : nat) (s : burst)
  : Prop :=
  length (b_buff s) = buff_len /\
  (b_p s <= buff_len)%nat /\
  (forall j : nat, (b_p s <= j < buff_len)%nat ->
     b_buff s !! j = Some (mem (addr start (i + j - b_p s)))) /\
  b_address s = addr start (i + buff_len - b_p s).

(** The number of refills during [n] passes entered with cursor [p]. *)
Definition refills (n p : nat) : nat := ((n + p - 1) / buff_len)%nat.

(** The time the gate reads off a sample, counted from the sample that
    gave [sel_start], as the 32-bit subtraction computes it. *)
Definition elapsed (t0 s : sample) : Z :=
  U32.sub (U32.wrap (at_ms s)) (U32.wrap (at_ms t0)).

Definition pressed (s : sample) : Prop := select s = true.
Definition released (s : sample) : Prop := select s = false.

(** The samples of a run of passes of the first loop of the gate: each
    pass polls SELECT and then the clock. *)
Definition rounds (ps : list (sample * sample)) : list sample :=
  ps ≫= (fun pm => [pm.1; pm.2]).

(** A pass that keeps the first loop going: SELECT reads pressed and
    the clock shows less than 1000 ms. *)
Definition quiet (t0 : sample) (pm : sample * sample) : Prop :=
  pressed pm.1 /\ elapsed t0 pm.2 < 1000.

(** A button sampled once per millisecond, held down for the first
    1500 ms and released from then on. *)
Definition held_1500 : list sample :=
  (fun k : nat => {| at_ms := Z.of_nat k; select := Z.of_nat k <? 1500 |})
    <$> seq 0 1600.

(** The state after the gate has used up samples and written [ops] to
    the display. *)
Definition after_gate (ops : list display_op) (tr : list sample)
    (st : state) : state :=
  {| testCnt := testCnt st;
     test_results := test_results st;
     hw := {| samples := tr;
              display := display (hw st) ++ ops;
              serial := serial (hw st) |} |}.

(** The two display writes of the gate when it asks for a release. *)
Definition release_prompt : list display_op :=
  [ShowMessage RELEASE_MESSAGE; ShowMessage ""].

(** The gate of [doTest] as a function of the samples alone: what it
    writes to the display and the samples it leaves; or, when the
    samples run out while it polls, what it has written to the display
    by then. *)
Definition gate (tr : list sample)
  : outcome_at (list display_op) (list display_op * list sample) :=
  match tr with
  | [] => Stalled []
  | t0 :: tr1 =>
      match wait_pressed (U32.wrap (at_ms t0)) tr1 with
      | Done [] => Stalled []
      | Done (c :: tr3) =>
          if select c then
            match wait_released tr3 with
            | Done tr4 => Done (release_prompt, tr4)
            | Blocked => Stalled [ShowMessage RELEASE_MESSAGE]
            | Undefined => Undefined
            end
          else Done ([], tr3)
      | Blocked => Stalled []
      | Undefined => Undefined
      end
  end.

(** What [showStatus] draws. *)
Definition status_ops (index : Z) (color : color_t) (what text : string)
  : list display_op :=
  [FillRect 5 (5 + index * (13 + 3)) 310 13 color; SetTextSize 1;
   SetTextColor BLACK; SetCursor (5 + 3) (5 + index * (13 + 3) + 3);
   DisplayPrint what; DisplayPrint ": "; DisplayPrint text].

(** The world when [doTest] calls the probe: the test is announced on
    the serial port and shown as pending on the display. *)
Definition announce (what : string) (cnt : Z) (w : world) : world :=
  {| samples := samples w;
     display := (display w ++ [ShowMessage ""])
                ++ status_ops cnt YELLOW what "Testing...";
     serial := serial w ++ [Print what; Print " Testing..."; Flush] |}.

(** The world when [doTest] returns: the outcome is shown and logged. *)
Definition conclude (what : string) (cnt : Z) (r : TestResult) (w : world)
  : world :=
  {| samples := samples w;
     display := display w
                ++ status_ops cnt (if success r then GREEN else RED)
                     what (status r);
     serial := serial w
               ++ [Print (if success r then "  SUCCESS" else "  FAILURE");
                   Print " - "; Println (status r); Flush] |}.

(** The result [doTest] stores and returns for a probe result. *)
Definition relabel (what : string) (pr : TestResult) : TestResult :=
  {| device := what; success := success pr; status := status pr |}.

(** The state in which [doTest] returns, from the state [st1] in which
    the gate has let it start. *)
Definition tested (what : string) (testFunc : probe) (st1 : state) : state :=
  let w1 := announce what (testCnt st1) (hw st1) in
  let r := relabel what (testFunc w1).1 in
  {| testCnt := testCnt st1 + 1;
     test_results := <[Z.to_nat (testCnt st1) := r]> (test_results st1);
     hw := conclude what (testCnt st1) r (testFunc w1).2 |}.

(** The names of the tests in the order [setup] runs them. *)
Definition test_names : list string :=
  ["LCD Screen"; "Connector"; "Flash"; "BMP180"; "MPU6050"; "HMC5883L";
   "SRAM"; "Micro-SD"; "MP3"; "MIDI"; "WiFi"; "Bluetooth"; "SIM908"].

(** The globals hold the results of the tests named [names], in order,
    in a buffer of the declared size. *)
Definition recorded (names : list string) (st : state) : Prop :=
  testCnt st = Z.of_nat (length names) /\
  length (test_results st) = RESULTS_LEN /\
  device <$> take (length names) (test_results st) = names.

(** A state with more written to the serial port. *)
Definition logged (ops : list serial_op) (st : state) : state :=
  {| testCnt := testCnt st;
     test_results := test_results st;
     hw := {| samples := samples (hw st);
              display := display (hw st);
              serial := serial (hw st) ++ ops |} |}.

(** The serial writes of the report loop over the results [todo], with
    the flag [test_success] as it stands. *)
Definition header_ops : list serial_op :=
  [Println "Testing completed with errors.";
   Println "Please check the following components:"].

Definition failure_ops (r : TestResult) : list serial_op :=
  [Print "- "; Print (device r); Print " ("; Print (status r); Println ")"].

Fixpoint report_ops (test_success : bool) (todo : list TestResult)
  : list serial_op :=
  match todo with
  | [] => []
  | r :: todo' =>
      if success r then report_ops test_success todo'
      else (if test_success then header_ops else [])
           ++ failure_ops r ++ report_ops false todo'
  end.

(** The report the specification asks for, from the recorded results. *)
Definition failing (recorded : list TestResult) : list TestResult :=
  filter (fun r => success r = false) recorded.

Definition failure_line (r : TestResult) : string :=
  "- " +:+ device r +:+ " (" +:+ status r +:+ ")".

Definition report_lines (recorded : list TestResult) : list string :=
  match failing recorded with
  | [] => ["Testing completed: no problems found."]
  | _ :: _ =>
      ["Testing completed with errors.";
       "Please check the following components:"]
      ++ (failure_line <$> failing recorded)
  end.

(** The end address the specification describes for the scan: an even
    address between the two fixed bounds, with nothing but erased words
    from there up to the top, and either the lower bound itself or a
    word just below that is not erased. *)
Definition is_firmware_end (mem : Z -> Z) (e : Z) : Prop :=
  FIRMWARE_START <= e <= FLASH_TOP /\
  e mod 2 = 0 /\
  (forall a, e <= a < FLASH_TOP -> a mod 2 = 0 -> mem a = ERASED) /\
  (e = FIRMWARE_START \/ mem (e - 2) <> ERASED).

End Ref.

Import Flash Runner Ref.

(** ** Further parts of the sketch *)

Section WithPrint.

(** The text [Serial.print(val, HEX)] of the Arduino core writes for a
    value. *)
Variable print_HEX : Z -> string.

(** [void printHex(uint8_t val)] *)
Definition printHex (val : Z) : M unit :=
  to_serial [Print "0x"] ;;;
  (if val <? 16 then to_serial [Print "0"] else ret tt) ;;;
  to_serial [Print (print_HEX val)] ;;;
  to_serial [Print ", "; Flush].

End WithPrint.

(** The loop [while (!isSelectPressed()) { ... }] of [startLCDTest] on
    the samples: every poll that finds SELECT released is followed by
    one drawing of the test pattern. The number of patterns drawn and
    the samples left when the loop is over. *)
Fixpoint await_select (frames : nat) (tr : list sample)
  : outcome (nat * list sample) :=
  match tr with
  | [] => Blocked
  | s :: tr' =>
      if negb (select s) then await_select (S frames) tr'
      else Done (frames, tr')
  end.

(** The settings that [setup] resets when the test station answers. *)
Module Station.

(** The fields of [PHN_Settings] that [setup] assigns. *)
Record PHN_Settings : Type := {
  flags : Z;
  touch_hor_a : Z;
  touch_hor_b : Z;
  touch_ver_a : Z;
  touch_ver_b : Z;
  sketch_toload : list Z
}.

Section WithDefaults.

(** The flag masks and default values of the Phoenard library. *)
Variables SETTINGS_TOUCH_HOR_INV SETTINGS_TOUCH_VER_INV
          SETTINGS_DEFAULT_FLAGS : Z.
Variables SETTINGS_DEFAULT_TOUCH_HOR_A SETTINGS_DEFAULT_TOUCH_HOR_B
          SETTINGS_DEFAULT_TOUCH_VER_A SETTINGS_DEFAULT_TOUCH_VER_B : Z.

(** [char defaultSketch[] = SETTINGS_DEFAULT_SKETCH;]: the bytes of the
    array as initialised. *)
Variable defaultSketch : list Z.

(** [memcpy(dst, src, 8)]: defined when both arrays hold 8 bytes. *)
Definition memcpy8 (dst src : list Z) : option (list Z) :=
  if (8 <=? length src)%nat && (8 <=? length dst)%nat
  then Some (take 8 src ++ drop 8 dst)
  else None.

(** The assignments between [PHN_Settings_Load] and
    [PHN_Settings_Save]. *)
Definition reset_settings (settings : PHN_Settings) : option PHN_Settings :=
  let flags1 :=
    Z.land (flags settings)
      (Z.lnot (Z.lor SETTINGS_TOUCH_HOR_INV SETTINGS_TOUCH_VER_INV)) in
  let flags2 := Z.lor flags1 SETTINGS_DEFAULT_FLAGS in
  sketch ← memcpy8 (sketch_toload settings) defaultSketch;
  Some {| flags := flags2;
          touch_hor_a := SETTINGS_DEFAULT_TOUCH_HOR_A;
          touch_hor_b := SETTINGS_DEFAULT_TOUCH_HOR_B;
          touch_ver_a := SETTINGS_DEFAULT_TOUCH_VER_A;
          touch_ver_b := SETTINGS_DEFAULT_TOUCH_VER_B;
          sketch_toload := sketch |}.

(** The [if (isStationConnected) { ... }] block of [setup]: the stored
    settings after it, from the stored settings before it. *)
Definition setup_station (isStationConnected : bool)
    (stored : PHN_Settings) : option PHN_Settings :=
  if isStationConnected then reset_settings stored else Some stored.

End WithDefaults.

End Station.

(** A run of [doTest] for each of [tests], one after the other, from
    [st] to [st'], and the results the calls return: each is what the
    probe returned in the world in which [doTest] called it (the one
    the gate has left, with the test announced), relabelled with the
    name of the test. *)
Fixpoint tests_run (DEVICE_SIZE : nat) (tests : list (string * probe))
    (st : state) (results : list TestResult) (st' : state) : Prop :=
  match tests, results with
  | [], [] => st' = st
  | t :: tests', r :: results' =>
      exists gated next : state,
        awaitRelease st = Done (tt, gated) /\
        r = relabel t.1
              (t.2 (announce t.1 (testCnt gated) (hw gated))).1 /\
        doTest DEVICE_SIZE t.1 t.2 st = Done (r, next) /\
        tests_run DEVICE_SIZE tests' next results' st'
  | _, _ => False
  end.

(** The line [doTest] writes to the serial port for a result. *)
Definition test_line (r : TestResult) : string :=
  device r +:+ " Testing..."
  +:+ (if success r then "  SUCCESS" else "  FAILURE")
  +:+ " - " +:+ status r.

(** The state of a run of [setup] after [n] tests, on a serial log that
    held the lines [before] when the tests started: the counter and the
    buffer, and the log with one line for each result so far. *)
Definition logged_tests (before : list string) (n : nat) (st : state)
  : Prop :=
  testCnt st = Z.of_nat n /\
  length (test_results st) = RESULTS_LEN /\
  lines_from "" (serial (hw st))
  = before ++ "Testing started." :: (test_line <$> take n (test_results st)) /\
  unfinished "" (serial (hw st)) = "".

(** ** Folds *)

Section Folds.

Context {A B C : Type}.
Variable f : A -> B -> A.

Lemma fold_left_step (b : B) (l : list B) (a : A) :
  fold_left f (b :: l) a = fold_left f l (f a b).
Proof. reflexivity. Qed.

Lemma fold_left_preserves (P : A -> Prop) (l : list B) (a : A) :
  (forall a b, P a -> P (f a b)) -> P a -> P (fold_left f l a).
Proof.
  intros Hf. revert a. induction l as [| b l IH]; intros a Ha.
  - exact Ha.
  - rewrite fold_left_step. apply IH, Hf, Ha.
Qed.

(** A step that is itself a fold over a few smaller items. *)
Lemma fold_left_concat (g : A -> C -> A) (h : B -> list C)
    (l : list B) (a : A) :
  (forall a b, f a b = fold_left g (h b) a) ->
  fold_left f l a = fold_left g (concat (h <$> l)) a.
Proof.
  intros Hf. revert a. induction l as [| b l IH]; intros a.
  - reflexivity.
  - rewrite fold_left_step, fmap_cons. cbn [concat].
    rewrite fold_left_app, <- Hf. apply IH.
Qed.

End Folds.

(** ** The bit-level routine against the reference CRC-32 *)

Example crc32_check_value :
  crc32 [0x31; 0x32; 0x33; 0x34; 0x35; 0x36; 0x37; 0x38; 0x39] = 0xCBF43926.
Proof. vm_compute. reflexivity. Qed.

Lemma land_1_testbit (c : Z) :
  (Z.land c 1 =? 0) = negb (Z.testbit c 0).
Proof.
  change 1 with (Z.ones 1). rewrite Z.land_ones by lia.
  rewrite <- Z.bit0_mod. destruct (Z.testbit c 0); reflexivity.
Qed.

Lemma runCRCWord_loop_bit (k : nat) (w c : Z) :
  (Z.land (Z.of_nat (S k)) 7 =? 0) = false ->
  runCRCWord_loop (S k) (w, c) = runCRCWord_loop k (w, crc32_bit c).
Proof.
  intros Hk. cbn [runCRCWord_loop]. f_equal.
  unfold runCRCWord_body, crc32_bit. rewrite Hk.
  rewrite land_1_testbit. destruct (Z.testbit c 0); reflexivity.
Qed.

Lemma runCRCWord_loop_byte (k : nat) (w c : Z) :
  (Z.land (Z.of_nat (S k)) 7 =? 0) = true ->
  runCRCWord_loop (S k) (w, c)
  = runCRCWord_loop k (Z.shiftr w 8, crc32_bit (Z.lxor c (Z.land w 255))).
Proof.
  intros Hk. cbn [runCRCWord_loop]. f_equal.
  unfold runCRCWord_body, crc32_bit. rewrite Hk.
  rewrite land_1_testbit.
  destruct (Z.testbit (Z.lxor c (Z.land w 255)) 0); reflexivity.
Qed.

(** One call of [runCRCWord] is the reference byte step applied to the
    low byte and then to the high byte of the word. *)
Lemma runCRCWord_bytes (w c : Z) :
  runCRCWord w c = fold_left crc32_byte (le_bytes w) c.
Proof.
  unfold runCRCWord, le_bytes, crc32_byte. cbn [fold_left Nat.iter].
  rewrite runCRCWord_loop_byte by reflexivity.
  do 7 (rewrite runCRCWord_loop_bit by reflexivity).
  rewrite runCRCWord_loop_byte by reflexivity.
  do 7 (rewrite runCRCWord_loop_bit by reflexivity).
  cbn [runCRCWord_loop snd Nat.iter nat_rect]. reflexivity.
Qed.

(** *** The accumulator stays a 32-bit value *)

Lemma in_range_land (x : Z) :
  U32.in_range x <-> Z.land x (Z.ones 32) = x.
Proof.
  unfold U32.in_range, U32.modulus. rewrite Z.land_ones by lia.
  change (2 ^ 32) with 4294967296. split.
  - intros H. apply Z.mod_small. exact H.
  - intros H. rewrite <- H. apply Z.mod_pos_bound. lia.
Qed.

Lemma in_range_testbit (a n : Z) :
  U32.in_range a ->
  Z.testbit a n = Z.testbit a n && Z.testbit (Z.ones 32) n.
Proof.
  rewrite in_range_land. intros Ha.
  rewrite <- Z.land_spec, Ha. reflexivity.
Qed.

Lemma in_range_lxor (a b : Z) :
  U32.in_range a -> U32.in_range b -> U32.in_range (Z.lxor a b).
Proof.
  intros Ha Hb. apply in_range_land.
  apply Z.bits_inj'. intros n Hn.
  rewrite Z.land_spec, Z.lxor_spec.
  pose proof (in_range_testbit a n Ha) as Ea.
  pose proof (in_range_testbit b n Hb) as Eb.
  destruct (Z.testbit a n), (Z.testbit b n), (Z.testbit (Z.ones 32) n);
    simpl in *; congruence.
Qed.

Lemma in_range_shiftr1 (a : Z) :
  U32.in_range a -> U32.in_range (Z.shiftr a 1).
Proof.
  unfold U32.in_range, U32.modulus. intros H.
  rewrite Z.shiftr_div_pow2 by lia. change (2 ^ 1) with 2.
  split.
  - apply Z.div_pos; lia.
  - apply Z.div_lt_upper_bound; lia.
Qed.

Lemma in_range_crc32_bit (c : Z) :
  U32.in_range c -> U32.in_range (crc32_bit c).
Proof.
  intros H. unfold crc32_bit. destruct (Z.testbit c 0).
  - apply in_range_lxor; [apply in_range_shiftr1; exact H |].
    unfold U32.in_range, U32.modulus, POLY. lia.
  - apply in_range_shiftr1. exact H.
Qed.

Lemma in_range_land_255 (w : Z) : U32.in_range (Z.land w 255).
Proof.
  change 255 with (Z.ones 8). rewrite Z.land_ones by lia.
  unfold U32.in_range, U32.modulus.
  pose proof (Z.mod_pos_bound w (2 ^ 8) ltac:(lia)). lia.
Qed.

Lemma in_range_crc32_byte (c b : Z) :
  U32.in_range c -> U32.in_range b -> U32.in_range (crc32_byte c b).
Proof.
  intros Hc Hb. unfold crc32_byte. cbn [Nat.iter nat_rect].
  do 8 apply in_range_crc32_bit. apply in_range_lxor; assumption.
Qed.

Lemma in_range_runCRCWord (w c : Z) :
  U32.in_range c -> U32.in_range (runCRCWord w c).
Proof.
  intros Hc. rewrite runCRCWord_bytes. unfold le_bytes. cbn [fold_left].
  do 2 (apply in_range_crc32_byte; [| apply in_range_land_255]).
  exact Hc.
Qed.

Lemma crc32_byte_iter (c b : Z) :
  crc32_byte c b = Nat.iter 8 crc32_bit (Z.lxor c b).
Proof. reflexivity. Qed.

(** From here on the bit-level routine is used through its lemmas. *)
#[global] Opaque runCRCWord crc32_byte.

Lemma in_range_not (x : Z) : U32.in_range (U32.not x).
Proof.
  unfold U32.not, U32.wrap, U32.in_range.
  apply Z.mod_pos_bound. unfold U32.modulus. lia.
Qed.

(** On a 32-bit value [~x] is the exclusive-or with all ones, and
    inverting twice gives the value back. *)
Lemma not_lxor_ones (x : Z) :
  U32.in_range x -> U32.not x = Z.lxor x 0xFFFFFFFF.
Proof.
  intros H. unfold U32.not, U32.wrap, U32.modulus.
  change 4294967296 with (2 ^ 32). rewrite <- Z.land_ones by lia.
  change 0xFFFFFFFF with (Z.ones 32).
  apply Z.bits_inj'. intros n Hn.
  rewrite Z.land_spec, Z.lxor_spec, Z.lnot_spec by exact Hn.
  pose proof (in_range_testbit x n H) as Ex.
  destruct (Z.testbit x n), (Z.testbit (Z.ones 32) n);
    simpl in *; congruence.
Qed.

Lemma not_not (x : Z) : U32.in_range x -> U32.not (U32.not x) = x.
Proof.
  intros H. rewrite (not_lxor_ones (U32.not x)) by apply in_range_not.
  rewrite (not_lxor_ones x) by exact H.
  rewrite Z.lxor_assoc, Z.lxor_nilpotent, Z.lxor_0_r. reflexivity.
Qed.

Lemma in_range_crc_words (ws : list Z) (c : Z) :
  U32.in_range c ->
  U32.in_range (fold_left (fun c w => runCRCWord w c) ws c).
Proof.
  apply fold_left_preserves. intros a w. apply in_range_runCRCWord.
Qed.

Lemma crc_words_bytes (ws : list Z) (c : Z) :
  fold_left (fun c w => runCRCWord w c) ws c
  = fold_left crc32_byte (concat (le_bytes <$> ws)) c.
Proof.
  apply fold_left_concat. intros a w. apply runCRCWord_bytes.
Qed.

(** Feeding words with seed 0 is the reference CRC-32 of their bytes,
    low byte first. *)
Lemma feed_words_crc32 (ws : list Z) :
  feed_words ws 0 = crc32 (concat (le_bytes <$> ws)).
Proof.
  unfold feed_words, crc32.
  change (U32.not 0) with 0xFFFFFFFF.
  rewrite not_lxor_ones.
  - rewrite crc_words_bytes. reflexivity.
  - apply in_range_crc_words. unfold U32.in_range, U32.modulus. lia.
Qed.

(** C2: [runCRCWord] is the reflected CRC-32 step (polynomial
    0xEDB88320, least significant bit first) on the two bytes of a
    16-bit word; feeding the words 0x0201 and 0x0403 with seed 0 gives
    the CRC-32/ISO-HDLC value of the bytes 01 02 03 04, which is
    0xB63CFBCD. *)
Theorem runCRCWord_is_crc32 :
  (forall w c : Z, runCRCWord w c = fold_left crc32_byte (le_bytes w) c) /\
  (forall ws : list Z, feed_words ws 0 = crc32 (concat (le_bytes <$> ws))) /\
  concat (le_bytes <$> [0x0201; 0x0403]) = [0x01; 0x02; 0x03; 0x04] /\
  feed_words [0x0201; 0x0403] 0 = crc32 [0x01; 0x02; 0x03; 0x04] /\
  crc32 [0x01; 0x02; 0x03; 0x04] = 0xB63CFBCD.
Proof.
  split; [exact runCRCWord_bytes |].
  split; [exact feed_words_crc32 |].
  split; [reflexivity |].
  split; vm_compute; reflexivity.
Qed.

(** ** Counters, addresses and regions *)

Lemma sub_1_zero (c : Z) :
  U32.in_range c -> U32.sub c 1 = 0 -> c = 1.
Proof.
  unfold U32.in_range, U32.sub, U32.wrap, U32.modulus. intros Hc H.
  destruct (Z.eq_dec c 0) as [-> | Hnz]; [discriminate H |].
  rewrite Z.mod_small in H; lia.
Qed.

Lemma in_range_sub (x y : Z) : U32.in_range (U32.sub x y).
Proof.
  unfold U32.in_range, U32.sub, U32.wrap.
  apply Z.mod_pos_bound. unfold U32.modulus. lia.
Qed.

Lemma passes_pos (c : Z) : U32.in_range c -> (1 <= passes c)%nat.
Proof.
  unfold U32.in_range, passes, U32.modulus. intros Hc.
  destruct (Z.eqb_spec c 0); lia.
Qed.

Lemma passes_one (c : Z) :
  U32.in_range c -> passes c = 1%nat -> U32.sub c 1 = 0.
Proof.
  unfold U32.in_range, passes, U32.modulus. intros Hc H.
  destruct (Z.eqb_spec c 0); [lia |].
  assert (c = 1) as -> by lia. reflexivity.
Qed.

Lemma passes_more (c : Z) (n : nat) :
  U32.in_range c -> passes c = S (S n) ->
  U32.sub c 1 <> 0 /\ passes (U32.sub c 1) = S n.
Proof.
  unfold U32.in_range, passes, U32.sub, U32.wrap, U32.modulus.
  intros Hc H.
  destruct (Z.eqb_spec c 0) as [-> | Hnz].
  - change ((0 - 1) mod 4294967296) with 4294967295.
    split; [lia |]. change (4294967295 =? 0) with false. cbv beta iota. lia.
  - rewrite Z.mod_small by lia.
    split; [lia |]. destruct (Z.eqb_spec (c - 1) 0); lia.
Qed.

Lemma addr_S (start : Z) (i : nat) :
  addr start (S i) = U32.add (addr start i) 2.
Proof. reflexivity. Qed.

Lemma addr_add (start : Z) (i j : nat) :
  addr (addr start i) j = addr start (i + j).
Proof.
  induction j as [| j IH].
  - rewrite Nat.add_0_r. reflexivity.
  - rewrite Nat.add_succ_r, !addr_S, IH. reflexivity.
Qed.

Lemma addr_closed (start : Z) (i : nat) :
  U32.in_range start -> addr start i = U32.wrap (start + 2 * Z.of_nat i).
Proof.
  intros Hs. induction i as [| i IH].
  - unfold addr. cbn [Nat.iter nat_rect]. unfold U32.wrap.
    rewrite Z.add_0_r, Z.mod_small; [reflexivity | exact Hs].
  - rewrite addr_S, IH. unfold U32.add, U32.wrap.
    rewrite Zplus_mod_idemp_l. f_equal. lia.
Qed.

Lemma word_addresses_S (start : Z) (i n : nat) :
  word_addresses start i (S n)
  = addr start i :: word_addresses start (S i) n.
Proof. reflexivity. Qed.

Lemma word_addresses_app (start : Z) (i n m : nat) :
  word_addresses start i (n + m)
  = word_addresses start i n ++ word_addresses start (i + n) m.
Proof.
  unfold word_addresses. rewrite seq_app, fmap_app. reflexivity.
Qed.

Lemma word_addresses_shift (start : Z) (k i n : nat) :
  word_addresses (addr start k) i n = word_addresses start (k + i) n.
Proof.
  revert i. induction n as [| n IH]; intros i.
  - reflexivity.
  - rewrite !word_addresses_S, IH, addr_add, Nat.add_succ_r. reflexivity.
Qed.

Lemma length_word_addresses (start : Z) (i n : nat) :
  length (word_addresses start i n) = n.
Proof. unfold word_addresses. rewrite length_fmap, length_seq. reflexivity. Qed.

Lemma in_range_word_count (start_addr end_addr : Z) :
  U32.in_range (word_count start_addr end_addr).
Proof.
  unfold word_count.
  pose proof (in_range_sub end_addr start_addr) as H.
  unfold U32.in_range, U32.modulus in *.
  split.
  - apply Z.div_pos; lia.
  - apply Z.div_lt_upper_bound; lia.
Qed.

Lemma lookup_word_addresses (start : Z) (i n j : nat) :
  (j < n)%nat -> word_addresses start i n !! j = Some (addr start (i + j)).
Proof.
  intros Hj. unfold word_addresses.
  rewrite list_lookup_fmap, lookup_seq_lt by exact Hj. reflexivity.
Qed.

Lemma refills_at_end (n : nat) : refills (S n) buff_len = S (refills n 1).
Proof.
  unfold refills, buff_len.
  replace (S n + 8 - 1)%nat with (1 * 8 + n)%nat by lia.
  replace (n + 1 - 1)%nat with n by lia.
  rewrite Nat.div_add_l by lia. lia.
Qed.

Lemma refills_inside (n p : nat) : refills (S n) p = refills n (S p).
Proof. unfold refills. f_equal. lia. Qed.

Lemma refills_none (p : nat) : (p <= buff_len)%nat -> refills 0 p = 0%nat.
Proof.
  unfold refills, buff_len. intros Hp. apply Nat.div_small. lia.
Qed.

(** What one pass adds to the log is what the refill count predicts. *)
Lemma burst_log_step (start : Z) (i n p : nat) :
  (p <= buff_len)%nat ->
  (if (p =? buff_len)%nat then word_addresses start i buff_len else [])
  ++ word_addresses start (S i + buff_len
                           - S (if (p =? buff_len)%nat then 0 else p))
       (buff_len * refills n (S (if (p =? buff_len)%nat then 0 else p)))
  = word_addresses start (i + buff_len - p) (buff_len * refills (S n) p).
Proof.
  intros Hp. destruct (Nat.eqb_spec p buff_len) as [-> | NE].
  - rewrite refills_at_end, Nat.mul_succ_r.
    rewrite (Nat.add_comm (buff_len * refills n 1) buff_len).
    rewrite word_addresses_app. f_equal.
    + f_equal. lia.
    + f_equal. unfold buff_len. lia.
  - rewrite refills_inside. cbn [app]. f_equal.
Qed.

Lemma word_count_region (start_addr end_addr : Z) :
  U32.in_range start_addr -> U32.in_range end_addr ->
  start_addr <= end_addr ->
  word_count start_addr end_addr = (end_addr - start_addr) / 2.
Proof.
  unfold U32.in_range, word_count, U32.sub, U32.wrap, U32.modulus.
  intros Hs He Hle. rewrite Z.mod_small by lia. reflexivity.
Qed.

Lemma passes_region (start_addr end_addr : Z) :
  U32.in_range start_addr -> U32.in_range end_addr ->
  start_addr + 2 <= end_addr ->
  passes (word_count start_addr end_addr)
  = Z.to_nat ((end_addr - start_addr) / 2).
Proof.
  intros Hs He Hle. rewrite word_count_region by (assumption || lia).
  unfold passes.
  destruct (Z.eqb_spec ((end_addr - start_addr) / 2) 0) as [E | _];
    [| reflexivity].
  exfalso. revert E. Z.div_mod_to_equations. lia.
Qed.

Lemma addr_region (start_addr end_addr : Z) (i : nat) :
  U32.in_range start_addr -> U32.in_range end_addr ->
  start_addr + 2 * Z.of_nat i <= end_addr ->
  addr start_addr i = start_addr + 2 * Z.of_nat i.
Proof.
  unfold U32.in_range. intros Hs He Hi.
  rewrite addr_closed by exact Hs.
  unfold U32.wrap. apply Z.mod_small. lia.
Qed.

Lemma word_addresses_region (start_addr end_addr : Z) (n : nat) :
  U32.in_range start_addr -> U32.in_range end_addr ->
  forall i : nat,
    start_addr + 2 * Z.of_nat (i + n) <= end_addr ->
    word_addresses start_addr i n
    = (fun k : nat => start_addr + 2 * Z.of_nat k) <$> seq i n.
Proof.
  intros Hs He. induction n as [| n IH]; intros i Hi.
  - reflexivity.
  - rewrite word_addresses_S. cbn [seq]. rewrite fmap_cons.
    rewrite (addr_region start_addr end_addr i Hs He) by lia.
    rewrite IH by lia. reflexivity.
Qed.

Lemma region_words_eq (start_addr end_addr : Z) :
  U32.in_range start_addr -> U32.in_range end_addr ->
  start_addr + 2 <= end_addr ->
  word_addresses start_addr 0 (passes (word_count start_addr end_addr))
  = region_words start_addr end_addr.
Proof.
  intros Hs He Hle. rewrite passes_region by assumption.
  unfold region_words.
  apply (word_addresses_region start_addr end_addr _ Hs He).
  rewrite Nat.add_0_l, Z2Nat.id by (apply Z.div_pos; lia).
  Z.div_mod_to_equations. lia.
Qed.

Lemma region_words_bounds (start_addr end_addr a : Z) :
  start_addr <= end_addr ->
  a ∈ region_words start_addr end_addr ->
  start_addr <= a < end_addr /\ (a - start_addr) mod 2 = 0.
Proof.
  intros Hle Hin. unfold region_words in Hin.
  apply list_elem_of_fmap in Hin as (k & -> & Hk).
  apply elem_of_seq in Hk.
  assert (Z.of_nat k < (end_addr - start_addr) / 2) by lia.
  split.
  - revert H. Z.div_mod_to_equations. lia.
  - replace (start_addr + 2 * Z.of_nat k - start_addr)
      with (Z.of_nat k * 2) by lia.
    apply Z.mod_mul. lia.
Qed.

Lemma refills_partial (n : nat) :
  (n mod 8 <> 0)%nat ->
  (buff_len * refills n buff_len = n + (8 - n mod 8))%nat.
Proof.
  unfold refills, buff_len. intros H.
  pose proof (Nat.div_mod_eq n 8) as E.
  pose proof (Nat.mod_upper_bound n 8 ltac:(lia)) as B.
  replace (n + 8 - 1)%nat with (1 * 8 + (n - 1))%nat by lia.
  rewrite Nat.div_add_l by lia.
  assert (Hd : ((n - 1) / 8 = n / 8)%nat).
  { symmetry.
    apply (Nat.div_unique (n - 1) 8 (n / 8) (n mod 8 - 1)); lia. }
  rewrite Hd. lia.
Qed.

(** ** The two checksum loops *)

Section FlashLoops.

Variable mem : Z -> Z.

Lemma crc_over_nil (crc : Z) : crc_over mem [] crc = crc.
Proof. reflexivity. Qed.

Lemma crc_over_cons (a : Z) (l : list Z) (crc : Z) :
  crc_over mem (a :: l) crc = crc_over mem l (runCRCWord (mem a) crc).
Proof.
  unfold crc_over.
  exact (fold_left_step (fun c x => runCRCWord (mem x) c) a l crc).
Qed.

Lemma crc_over_app (l1 l2 : list Z) (crc : Z) :
  crc_over mem (l1 ++ l2) crc = crc_over mem l2 (crc_over mem l1 crc).
Proof. unfold crc_over. apply fold_left_app. Qed.

Lemma crc_over_words (l : list Z) (crc : Z) :
  crc_over mem l crc = fold_left (fun c w => runCRCWord w c) (mem <$> l) crc.
Proof.
  revert crc. induction l as [| a l IH]; intros crc.
  - rewrite crc_over_nil. reflexivity.
  - rewrite crc_over_cons, fmap_cons, fold_left_step. apply IH.
Qed.

Lemma in_range_crc_over (l : list Z) (crc : Z) :
  U32.in_range crc -> U32.in_range (crc_over mem l crc).
Proof.
  unfold crc_over. apply fold_left_preserves.
  intros c a Hc. cbv beta. apply in_range_runCRCWord, Hc.
Qed.

(** *** The sequential loop *)

Lemma calcCRCFlash_loop_last (address address_ctr crc : Z) (log : list Z) :
  U32.sub address_ctr 1 = 0 ->
  calcCRCFlash_loop mem address address_ctr crc log
  = (runCRCWord (mem address) crc, log ++ [address]).
Proof.
  intros H. rewrite calcCRCFlash_loop_equation_1.
  destruct (Z.eq_dec (U32.sub address_ctr 1) 0) as [e | ne];
    [| contradiction].
  unfold calcCRCFlash_loop_unfold_clause_1, read. reflexivity.
Qed.

Lemma calcCRCFlash_loop_next (address address_ctr crc : Z) (log : list Z) :
  U32.sub address_ctr 1 <> 0 ->
  calcCRCFlash_loop mem address address_ctr crc log
  = calcCRCFlash_loop mem (U32.add address 2) (U32.sub address_ctr 1)
      (runCRCWord (mem address) crc) (log ++ [address]).
Proof.
  intros H. rewrite calcCRCFlash_loop_equation_1.
  destruct (Z.eq_dec (U32.sub address_ctr 1) 0) as [e | ne];
    [contradiction |].
  unfold calcCRCFlash_loop_unfold_clause_1, read. reflexivity.
Qed.

(** The loop makes [passes address_ctr] passes, each reading the next
    word and feeding it to [runCRCWord]. *)
Lemma calcCRCFlash_loop_passes (start : Z) (n : nat) :
  forall (i : nat) (address_ctr crc : Z) (log : list Z),
    U32.in_range address_ctr ->
    passes address_ctr = S n ->
    calcCRCFlash_loop mem (addr start i) address_ctr crc log
    = (crc_over mem (word_addresses start i (S n)) crc,
       log ++ word_addresses start i (S n)).
Proof.
  induction n as [| n IH]; intros i address_ctr crc log Hr Hp.
  - rewrite calcCRCFlash_loop_last by (apply passes_one; assumption).
    rewrite word_addresses_S. unfold word_addresses at 1 2.
    cbn [seq fmap list_fmap].
    rewrite crc_over_cons, crc_over_nil. reflexivity.
  - destruct (passes_more _ _ Hr Hp) as [Hne Hp'].
    rewrite calcCRCFlash_loop_next by exact Hne.
    rewrite <- addr_S.
    rewrite (IH (S i) _ _ _ (in_range_sub _ _) Hp').
    rewrite (word_addresses_S start i (S n)).
    rewrite crc_over_cons, <- app_assoc. reflexivity.
Qed.

(** [calcCRCFlash]: the seed inverted, one pass per counted word (2^32
    passes for a count of zero), the result inverted. *)
Lemma calcCRCFlash_run_passes (start_addr end_addr start_crc : Z) :
  calcCRCFlash_run mem start_addr end_addr start_crc
  = (let l := word_addresses start_addr 0
                (passes (word_count start_addr end_addr)) in
     (U32.not (crc_over mem l (U32.not start_crc)), l)).
Proof.
  pose proof (passes_pos _ (in_range_word_count start_addr end_addr)) as Hp.
  destruct (passes (word_count start_addr end_addr)) as [| n] eqn:E;
    [lia |].
  unfold calcCRCFlash_run. fold (word_count start_addr end_addr).
  cbv zeta. change start_addr with (addr start_addr 0) at 1.
  rewrite (calcCRCFlash_loop_passes start_addr n 0 _ _ _
             (in_range_word_count start_addr end_addr) E).
  reflexivity.
Qed.

End FlashLoops.

(** ** The burst loop *)

Section BurstLoop.

Variable mem : Z -> Z.

(** A refill reads eight consecutive words into the buffer. *)
Lemma refill_at_end (s : burst) :
  b_p s = buff_len -> length (b_buff s) = buff_len ->
  refill mem s
  = {| b_address := addr (b_address s) 8;
       b_buff := mem <$> word_addresses (b_address s) 0 8;
       b_p := 0;
       b_log := b_log s ++ word_addresses (b_address s) 0 8 |}.
Proof.
  destruct s as [a buff p log]. cbn [b_p b_buff b_address b_log].
  intros -> Hlen. unfold refill. cbn [b_p]. rewrite Nat.eqb_refl.
  do 9 (destruct buff as [| ? buff]; try discriminate Hlen).
  cbn -[U32.add app word_addresses addr].
  rewrite <- !app_assoc. reflexivity.
Qed.

Lemma refill_inside (s : burst) :
  (b_p s < buff_len)%nat -> refill mem s = s.
Proof.
  intros Hp. unfold refill.
  destruct (Nat.eqb_spec (b_p s) buff_len); [lia | reflexivity].
Qed.

(** One pass of the loop body feeds the next word and keeps the buffer
    in step with the flash. *)
Lemma burst_body_buffered (start : Z) (i : nat) (s : burst) (crc : Z) :
  buffered mem start i s ->
  exists s' : burst,
    burst_body mem s crc = (s', runCRCWord (mem (addr start i)) crc) /\
    buffered mem start (S i) s' /\
    b_p s' = S (if (b_p s =? buff_len)%nat then 0%nat else b_p s) /\
    b_log s' = b_log s ++
               (if (b_p s =? buff_len)%nat
                then word_addresses start i buff_len else []).
Proof.
  intros (Hlen & Hp & Hbuf & Haddr).
  destruct (Nat.eqb_spec (b_p s) buff_len) as [E | NE].
  - (* the cursor is at the end: refill *)
    assert (Ha : b_address s = addr start i).
    { rewrite Haddr, E. f_equal. lia. }
    unfold burst_body. rewrite (refill_at_end s E Hlen), Ha.
    rewrite word_addresses_shift, addr_add, Nat.add_0_r.
    unfold fetch. cbn [b_address b_buff b_p b_log].
    assert (Hw : (mem <$> word_addresses start i 8) !!! 0%nat
                 = mem (addr start i)).
    { apply list_lookup_total_correct.
      rewrite list_lookup_fmap, lookup_word_addresses by lia.
      cbn [fmap option_fmap option_map]. do 3 f_equal. lia. }
    rewrite Hw.
    eexists. split; [reflexivity |].
    split; [| split; reflexivity].
    unfold buffered. cbn [b_address b_buff b_p b_log].
    split; [| split; [| split]].
    + rewrite length_fmap, length_word_addresses. reflexivity.
    + unfold buff_len. lia.
    + intros j Hj.
      rewrite list_lookup_fmap, lookup_word_addresses
        by (unfold buff_len in Hj; lia).
      cbn [fmap option_fmap option_map]. do 3 f_equal. lia.
    + f_equal. unfold buff_len. lia.
  - (* the buffer still holds the word *)
    assert (Hlt : (b_p s < buff_len)%nat) by lia.
    unfold burst_body. rewrite (refill_inside s Hlt).
    unfold fetch.
    assert (Hw : b_buff s !!! b_p s = mem (addr start i)).
    { apply list_lookup_total_correct.
      rewrite (Hbuf (b_p s)) by lia. do 3 f_equal. lia. }
    rewrite Hw.
    eexists. split; [reflexivity |].
    split; [| split; [reflexivity |]].
    + unfold buffered. cbn [b_address b_buff b_p b_log].
      split; [exact Hlen | split; [lia | split]].
      * intros j Hj. rewrite Hbuf by lia.
        first [reflexivity | do 3 f_equal; lia].
      * rewrite Haddr. first [reflexivity | f_equal; lia].
    + cbn [b_log]. rewrite app_nil_r. reflexivity.
Qed.

Lemma calcCRCFlashBurst_loop_last (s : burst) (address_ctr crc : Z) :
  U32.sub address_ctr 1 = 0 ->
  calcCRCFlashBurst_loop mem s address_ctr crc
  = (snd (burst_body mem s crc), fst (burst_body mem s crc)).
Proof.
  intros H. rewrite calcCRCFlashBurst_loop_equation_1.
  destruct (Z.eq_dec (U32.sub address_ctr 1) 0) as [e | ne];
    [| contradiction].
  unfold calcCRCFlashBurst_loop_unfold_clause_1. reflexivity.
Qed.

Lemma calcCRCFlashBurst_loop_next (s : burst) (address_ctr crc : Z) :
  U32.sub address_ctr 1 <> 0 ->
  calcCRCFlashBurst_loop mem s address_ctr crc
  = calcCRCFlashBurst_loop mem (fst (burst_body mem s crc))
      (U32.sub address_ctr 1) (snd (burst_body mem s crc)).
Proof.
  intros H. rewrite calcCRCFlashBurst_loop_equation_1.
  destruct (Z.eq_dec (U32.sub address_ctr 1) 0) as [e | ne];
    [contradiction |].
  unfold calcCRCFlashBurst_loop_unfold_clause_1. reflexivity.
Qed.

(** The burst loop makes the same passes over the same words; its log
    holds whole bursts. *)
Lemma calcCRCFlashBurst_loop_passes (start : Z) (n : nat) :
  forall (i : nat) (s : burst) (address_ctr crc : Z),
    U32.in_range address_ctr ->
    passes address_ctr = S n ->
    buffered mem start i s ->
    fst (calcCRCFlashBurst_loop mem s address_ctr crc)
    = crc_over mem (word_addresses start i (S n)) crc /\
    b_log (snd (calcCRCFlashBurst_loop mem s address_ctr crc))
    = b_log s ++ word_addresses start (i + buff_len - b_p s)
                   (buff_len * refills (S n) (b_p s)).
Proof.
  induction n as [| n IH]; intros i s address_ctr crc Hr Hp Hb.
  - rewrite calcCRCFlashBurst_loop_last by (apply passes_one; assumption).
    destruct (burst_body_buffered start i s crc Hb)
      as (s' & -> & Hb' & Hp' & Hlog).
    cbn [fst snd]. split.
    + rewrite word_addresses_S. unfold word_addresses at 1.
      cbn [seq fmap list_fmap].
      rewrite crc_over_cons, crc_over_nil. reflexivity.
    + rewrite Hlog, <- (burst_log_step start i 0 (b_p s)) by apply Hb.
      rewrite refills_none, Nat.mul_0_r.
      * unfold word_addresses at 2. cbn [seq fmap list_fmap].
        rewrite app_nil_r. reflexivity.
      * destruct (b_p s =? buff_len)%nat; [unfold buff_len; lia |].
        destruct Hb' as (_ & Hle & _). lia.
  - destruct (passes_more _ _ Hr Hp) as [Hne Hpn].
    rewrite calcCRCFlashBurst_loop_next by exact Hne.
    destruct (burst_body_buffered start i s crc Hb)
      as (s' & -> & Hb' & Hp' & Hlog).
    cbn [fst snd].
    destruct (IH (S i) s' (U32.sub address_ctr 1)
                (runCRCWord (mem (addr start i)) crc)
                (in_range_sub _ _) Hpn Hb') as [Hcrc Hl].
    split.
    + rewrite Hcrc, (word_addresses_S start i (S n)), crc_over_cons.
      reflexivity.
    + rewrite Hl, Hlog, Hp', <- app_assoc.
      rewrite (burst_log_step start i (S n) (b_p s)) by apply Hb.
      reflexivity.
Qed.

Lemma buffered_initial (buff0 : list Z) (start : Z) :
  length buff0 = buff_len ->
  buffered mem start 0
    {| b_address := start; b_buff := buff0; b_p := buff_len; b_log := [] |}.
Proof.
  intros Hlen. unfold buffered. cbn [b_address b_buff b_p b_log].
  split; [exact Hlen | split; [lia | split]].
  - intros j Hj. lia.
  - reflexivity.
Qed.

(** [calcCRCFlashBurst]: the same checksum; the log holds the words of
    whole bursts, whatever the buffer held on entry. *)
Lemma calcCRCFlashBurst_from_passes (buff0 : list Z)
    (start_addr end_addr start_crc : Z) :
  length buff0 = buff_len ->
  calcCRCFlashBurst_from mem buff0 start_addr end_addr start_crc
  = (let n := passes (word_count start_addr end_addr) in
     (U32.not (crc_over mem (word_addresses start_addr 0 n)
                 (U32.not start_crc)),
      word_addresses start_addr 0 (buff_len * refills n buff_len))).
Proof.
  intros Hlen.
  pose proof (passes_pos _ (in_range_word_count start_addr end_addr)) as Hp.
  destruct (passes (word_count start_addr end_addr)) as [| n] eqn:E;
    [lia |].
  unfold calcCRCFlashBurst_from. fold (word_count start_addr end_addr).
  cbv zeta.
  destruct (calcCRCFlashBurst_loop_passes start_addr n 0 _
              (word_count start_addr end_addr) (U32.not start_crc)
              (in_range_word_count start_addr end_addr) E
              (buffered_initial buff0 start_addr Hlen)) as [Hcrc Hl].
  destruct (calcCRCFlashBurst_loop mem _ _ _) as [crc s'].
  cbn [fst snd] in Hcrc, Hl. rewrite Hcrc, Hl.
  cbn [b_log b_p app]. do 2 f_equal.
Qed.

End BurstLoop.

(** ** The checksum functions *)

Section Checksums.

Variable mem : Z -> Z.

Lemma calcCRCFlash_passes (start_addr end_addr start_crc : Z) :
  calcCRCFlash mem start_addr end_addr start_crc
  = U32.not (crc_over mem
               (word_addresses start_addr 0
                  (passes (word_count start_addr end_addr)))
               (U32.not start_crc)).
Proof.
  unfold calcCRCFlash. rewrite calcCRCFlash_run_passes. reflexivity.
Qed.

Lemma calcCRCFlashBurst_passes (start_addr end_addr start_crc : Z) :
  calcCRCFlashBurst mem start_addr end_addr start_crc
  = U32.not (crc_over mem
               (word_addresses start_addr 0
                  (passes (word_count start_addr end_addr)))
               (U32.not start_crc)).
Proof.
  unfold calcCRCFlashBurst, calcCRCFlashBurst_run.
  rewrite calcCRCFlashBurst_from_passes by apply length_replicate.
  reflexivity.
Qed.

End Checksums.

(** What the local buffer holds on entry makes no difference. *)
Lemma calcCRCFlashBurst_buffer_irrelevant (mem : Z -> Z) (buff0 : list Z)
    (start_addr end_addr start_crc : Z) :
  length buff0 = buff_len ->
  calcCRCFlashBurst_from mem buff0 start_addr end_addr start_crc
  = calcCRCFlashBurst_run mem start_addr end_addr start_crc.
Proof.
  intros Hlen. unfold calcCRCFlashBurst_run.
  rewrite !calcCRCFlashBurst_from_passes
    by (exact Hlen || apply length_replicate).
  reflexivity.
Qed.

(** C1: [calcCRCFlash] and [calcCRCFlashBurst] return the same value for
    the same start address, end address and seed, over any memory
    content; in particular over every region whose length is a multiple
    of 2. *)
Theorem calcCRCFlashBurst_agrees (mem : Z -> Z)
    (start_addr end_addr start_crc : Z) :
  calcCRCFlashBurst mem start_addr end_addr start_crc
  = calcCRCFlash mem start_addr end_addr start_crc.
Proof.
  rewrite calcCRCFlashBurst_passes, calcCRCFlash_passes. reflexivity.
Qed.

Example calcCRCFlash_agree_ex :
  calcCRCFlash (fun a => a) 16 56 0 = 53468929 /\
  calcCRCFlashBurst (fun a => a) 16 56 0 = 53468929.
Proof. split; vm_compute; reflexivity. Qed.

Section Regions.

Variable mem : Z -> Z.

(** On a region that holds at least one word and does not wrap,
    [calcCRCFlash] reads exactly the words of the region, in ascending
    order, and feeds each to [runCRCWord] between the two inversions. *)
Lemma calcCRCFlash_run_region (start_addr end_addr start_crc : Z) :
  U32.in_range start_addr -> U32.in_range end_addr ->
  start_addr + 2 <= end_addr ->
  calcCRCFlash_run mem start_addr end_addr start_crc
  = (feed_words (mem <$> region_words start_addr end_addr) start_crc,
     region_words start_addr end_addr).
Proof.
  intros Hs He Hle. rewrite calcCRCFlash_run_passes. cbv zeta.
  rewrite region_words_eq by assumption.
  unfold feed_words. rewrite crc_over_words. reflexivity.
Qed.

Lemma crc_over_ext (mem' : Z -> Z) (l : list Z) (crc : Z) :
  (forall a, a ∈ l -> mem' a = mem a) ->
  crc_over mem' l crc = crc_over mem l crc.
Proof.
  revert crc. induction l as [| a l IH]; intros crc H.
  - rewrite !crc_over_nil. reflexivity.
  - rewrite !crc_over_cons, H by apply list_elem_of_here.
    apply IH. intros b Hb. apply H, list_elem_of_further, Hb.
Qed.

End Regions.

(** C5: for a region of length 0 the loop of [calcCRCFlash] does not
    process 0 words: its counter starts at 0, the body runs before the
    counter is tested, and the decrement wraps, so that 2^32 words are
    read. *)
Theorem calcCRCFlash_empty_region (mem : Z -> Z) (a start_crc : Z) :
  word_count a a = 0 /\
  Z.of_nat (length (snd (calcCRCFlash_run mem a a start_crc))) = 4294967296.
Proof.
  assert (E : word_count a a = 0).
  { unfold word_count, U32.sub, U32.wrap. rewrite Z.sub_diag. reflexivity. }
  split; [exact E |].
  rewrite calcCRCFlash_run_passes. cbv zeta. cbn [snd].
  rewrite length_word_addresses, E. unfold passes.
  change (0 =? 0) with true. cbv iota.
  rewrite Z2Nat.id by (unfold U32.modulus; lia). reflexivity.
Qed.

(** *** Seed chaining *)

(** With an odd first region the second pass starts between two words
    of a single pass from [a] to [c]: the chained value differs. *)
Lemma crc_chaining_odd_counterexample :
  0 < 3 < 6 /\
  calcCRCFlash (fun a => a) 3 6 (calcCRCFlash (fun a => a) 0 3 0)
  <> calcCRCFlash (fun a => a) 0 6 0.
Proof.
  split; [lia |]. vm_compute. discriminate.
Qed.

(** C3 (amended): for addresses [a < b < c] where the first region has
    even length and the second holds at least one word, the checksum of
    [b..c] seeded with the checksum of [a..b] is the checksum of
    [a..c] with seed 0. *)
Theorem crc_chaining (mem : Z -> Z) (a b c : Z) :
  U32.in_range a -> U32.in_range b -> U32.in_range c ->
  a < b -> (b - a) mod 2 = 0 -> b + 2 <= c ->
  calcCRCFlash mem b c (calcCRCFlash mem a b 0) = calcCRCFlash mem a c 0.
Proof.
  intros Ha Hb Hc Hab Heven Hbc.
  assert (Hab2 : a + 2 <= b) by (revert Heven; Z.div_mod_to_equations; lia).
  rewrite !calcCRCFlash_passes.
  rewrite not_not
    by (apply in_range_crc_over, in_range_not).
  rewrite !passes_region by (assumption || lia).
  set (n1 := Z.to_nat ((b - a) / 2)).
  set (n2 := Z.to_nat ((c - b) / 2)).
  assert (Hn : Z.to_nat ((c - a) / 2) = (n1 + n2)%nat).
  { subst n1 n2. rewrite <- Z2Nat.inj_add by (apply Z.div_pos; lia).
    f_equal. revert Heven. Z.div_mod_to_equations. lia. }
  assert (Hbaddr : b = addr a n1).
  { rewrite (addr_region a b n1 Ha Hb).
    - subst n1. rewrite Z2Nat.id by (apply Z.div_pos; lia).
      revert Heven. Z.div_mod_to_equations. lia.
    - subst n1. rewrite Z2Nat.id by (apply Z.div_pos; lia).
      Z.div_mod_to_equations. lia. }
  rewrite Hn, word_addresses_app, crc_over_app.
  rewrite Hbaddr at 1. rewrite word_addresses_shift, Nat.add_0_r.
  reflexivity.
Qed.

Lemma crc_chaining_witness :
  calcCRCFlash (fun a => a) 4 8 (calcCRCFlash (fun a => a) 0 4 0)
  = calcCRCFlash (fun a => a) 0 8 0.
Proof.
  apply crc_chaining; unfold U32.in_range, U32.modulus;
    first [lia | reflexivity].
Defined.

(** *** What the burst variant reads *)

Lemma bytes_read_cons (a : Z) (log : list Z) :
  bytes_read (a :: log) = a :: U32.add a 1 :: bytes_read log.
Proof. reflexivity. Qed.

Lemma length_bytes_read (log : list Z) :
  length (bytes_read log) = (2 * length log)%nat.
Proof.
  induction log as [| a log IH]; [reflexivity |].
  rewrite bytes_read_cons. cbn [length]. rewrite IH. lia.
Qed.

Lemma elem_of_bytes_read (b : Z) (log : list Z) :
  b ∈ bytes_read log <-> exists a, a ∈ log /\ (b = a \/ b = U32.add a 1).
Proof.
  unfold bytes_read. rewrite list_elem_of_bind. split.
  - intros (a & Hb & Ha). exists a. split; [exact Ha |].
    apply elem_of_cons in Hb as [-> | Hb]; [left; reflexivity |].
    apply list_elem_of_singleton in Hb. right. exact Hb.
  - intros (a & Ha & [-> | ->]); exists a; (split; [| exact Ha]).
    + apply list_elem_of_here.
    + apply list_elem_of_further, list_elem_of_here.
Qed.

(** The words of a region lie inside it with both their bytes. *)
Lemma region_words_inside (start_addr end_addr a : Z) :
  a ∈ region_words start_addr end_addr ->
  start_addr <= a /\ a + 1 < end_addr.
Proof.
  unfold region_words. intros H.
  apply list_elem_of_fmap in H as (k & -> & Hk).
  apply elem_of_seq in Hk.
  assert (Z.of_nat k < (end_addr - start_addr) / 2) by lia.
  split; [lia |]. Z.div_mod_to_equations. lia.
Qed.

(** With [start_addr] above [end_addr] the subtraction wraps: from 4 to
    0 the word count is 0x7FFFFFFE, neither zero nor a multiple of 8,
    and the first word [calcCRCFlash] reads is the one at 4, which is
    not within the bounds. *)
Lemma calcCRCFlash_wrap_counterexample :
  word_count 4 0 = 0x7FFFFFFE /\
  word_count 4 0 <> 0 /\ word_count 4 0 mod 8 <> 0 /\
  (forall (mem : Z -> Z) (start_crc : Z),
     snd (calcCRCFlash_run mem 4 0 start_crc) !! 0%nat = Some 4) /\
  ~ (4 <= 4 < 0).
Proof.
  assert (E : word_count 4 0 = 0x7FFFFFFE) by (vm_compute; reflexivity).
  split; [exact E |]. rewrite E.
  split; [discriminate |]. split; [vm_compute; discriminate |].
  split; [| lia].
  intros mem start_crc. rewrite calcCRCFlash_run_passes.
  cbv zeta. cbn [snd].
  rewrite lookup_word_addresses; [reflexivity |].
  pose proof (passes_pos (word_count 4 0) (in_range_word_count 4 0)). lia.
Qed.

(** C10 (amended): for in-range addresses [start_addr <= end_addr] whose
    word count is neither zero nor a multiple of 8, [calcCRCFlashBurst]
    reads the words [calcCRCFlash] reads and then between 1 and 7
    further words, at most 14 bytes, because it always fetches a whole
    burst. The first of these words lies at [end_addr] or one byte
    below it, so that the byte at [end_addr] is among those fetched:
    the function reads at and beyond the end of the region.
    [calcCRCFlash] fetches only bytes from [start_addr] on and below
    [end_addr]. The words past the end have no influence on the value
    [calcCRCFlashBurst] returns. *)
Theorem calcCRCFlashBurst_overread (mem : Z -> Z)
    (start_addr end_addr start_crc : Z) :
  U32.in_range start_addr -> U32.in_range end_addr ->
  start_addr <= end_addr ->
  word_count start_addr end_addr <> 0 ->
  word_count start_addr end_addr mod 8 <> 0 ->
  let n := Z.to_nat (word_count start_addr end_addr) in
  let k := Z.to_nat (8 - word_count start_addr end_addr mod 8) in
  let extra := word_addresses start_addr n k in
  (1 <= k <= 7)%nat /\
  snd (calcCRCFlashBurst_run mem start_addr end_addr start_crc)
  = snd (calcCRCFlash_run mem start_addr end_addr start_crc) ++ extra /\
  length extra = k /\
  (length (bytes_read extra) <= 14)%nat /\
  extra !! 0%nat = Some (start_addr + 2 * Z.of_nat n) /\
  end_addr - 1 <= start_addr + 2 * Z.of_nat n <= end_addr /\
  end_addr ∈ bytes_read extra /\
  end_addr
  ∈ bytes_read (snd (calcCRCFlashBurst_run mem start_addr end_addr
                       start_crc)) /\
  (forall b,
     b ∈ bytes_read (snd (calcCRCFlash_run mem start_addr end_addr
                            start_crc)) ->
     start_addr <= b < end_addr) /\
  (forall mem' : Z -> Z,
     (forall a, start_addr <= a -> a + 1 < end_addr -> mem' a = mem a) ->
     calcCRCFlashBurst mem' start_addr end_addr start_crc
     = calcCRCFlashBurst mem start_addr end_addr start_crc).
Proof.
  intros Hs He Hle Hnz Hpart n k extra.
  assert (Hwc : word_count start_addr end_addr
                = (end_addr - start_addr) / 2)
    by (apply word_count_region; assumption).
  assert (Hq : 0 < (end_addr - start_addr) / 2).
  { assert (0 <= (end_addr - start_addr) / 2) by (apply Z.div_pos; lia).
    lia. }
  assert (Hle2 : start_addr + 2 <= end_addr)
    by (revert Hq; Z.div_mod_to_equations; lia).
  assert (Hm : 0 <= word_count start_addr end_addr mod 8 < 8)
    by (apply Z.mod_pos_bound; lia).
  assert (Hk : (1 <= k <= 7)%nat) by (subst k; lia).
  assert (Hpasses : passes (word_count start_addr end_addr) = n).
  { rewrite passes_region by assumption. subst n. rewrite Hwc.
    reflexivity. }
  assert (Hnk : (8 - n mod 8)%nat = k).
  { subst n k. apply Nat2Z.inj. rewrite Nat2Z.inj_sub.
    - rewrite Nat2Z.inj_mod, !Z2Nat.id by lia. reflexivity.
    - pose proof (Nat.mod_upper_bound
                    (Z.to_nat (word_count start_addr end_addr)) 8
                    ltac:(lia)). lia. }
  assert (Hnm : (n mod 8 <> 0)%nat).
  { subst n. intros E. apply Hpart.
    apply (f_equal Z.of_nat) in E.
    rewrite Nat2Z.inj_mod, Z2Nat.id in E by lia. exact E. }
  assert (Hn2 : 2 * Z.of_nat n = 2 * ((end_addr - start_addr) / 2))
    by (subst n; rewrite Hwc, Z2Nat.id by lia; reflexivity).
  assert (Hnear : end_addr - 1 <= start_addr + 2 * Z.of_nat n <= end_addr)
    by (rewrite Hn2; Z.div_mod_to_equations; lia).
  assert (Hfirst : addr start_addr n = start_addr + 2 * Z.of_nat n)
    by (apply (addr_region start_addr end_addr n Hs He); lia).
  assert (Hextra : extra
                   = (start_addr + 2 * Z.of_nat n)
                     :: word_addresses start_addr (S n) (k - 1)).
  { subst extra. replace k with (S (k - 1)) at 1 by lia.
    rewrite word_addresses_S, Hfirst. reflexivity. }
  assert (Hlog : snd (calcCRCFlash_run mem start_addr end_addr start_crc)
                 = region_words start_addr end_addr)
    by (rewrite calcCRCFlash_run_region by assumption; reflexivity).
  assert (Hburst :
    snd (calcCRCFlashBurst_run mem start_addr end_addr start_crc)
    = snd (calcCRCFlash_run mem start_addr end_addr start_crc) ++ extra).
  { rewrite Hlog. unfold calcCRCFlashBurst_run.
    rewrite calcCRCFlashBurst_from_passes by apply length_replicate.
    cbv zeta. cbn [snd].
    rewrite <- region_words_eq by assumption.
    rewrite Hpasses.
    rewrite (refills_partial n Hnm), Hnk, word_addresses_app.
    reflexivity. }
  assert (Hend : end_addr ∈ bytes_read extra).
  { rewrite Hextra, bytes_read_cons.
    destruct (Z.eq_dec (start_addr + 2 * Z.of_nat n) end_addr) as [E | E].
    - rewrite E. apply list_elem_of_here.
    - apply list_elem_of_further.
      replace (U32.add (start_addr + 2 * Z.of_nat n) 1) with end_addr.
      + apply list_elem_of_here.
      + unfold U32.add, U32.wrap.
        replace (start_addr + 2 * Z.of_nat n + 1) with end_addr by lia.
        symmetry. apply Z.mod_small. exact He. }
  split; [exact Hk |].
  split; [exact Hburst |].
  split; [apply length_word_addresses |].
  split; [unfold extra; rewrite length_bytes_read, length_word_addresses;
          lia |].
  split; [rewrite Hextra; reflexivity |].
  split; [exact Hnear |].
  split; [exact Hend |].
  split; [| split].
  - rewrite Hburst. apply elem_of_bytes_read.
    apply elem_of_bytes_read in Hend as (a & Ha & Hb).
    exists a. split; [| exact Hb]. apply elem_of_app. right. exact Ha.
  - intros b Hb. rewrite Hlog in Hb.
    apply elem_of_bytes_read in Hb as (a & Ha & Hb).
    apply region_words_inside in Ha as [Ha1 Ha2].
    destruct Hb as [-> | ->]; [lia |].
    unfold U32.add, U32.wrap. rewrite Z.mod_small.
    + lia.
    + unfold U32.in_range in *. lia.
  - intros mem' Hext. rewrite !calcCRCFlashBurst_passes.
    rewrite region_words_eq by assumption.
    rewrite (crc_over_ext mem mem'); [reflexivity |].
    intros a Ha. apply region_words_inside in Ha as [Ha1 Ha2].
    apply Hext; assumption.
Qed.

Lemma calcCRCFlashBurst_overread_witness :
  snd (calcCRCFlashBurst_run (fun a => a) 0 15 0)
  = snd (calcCRCFlash_run (fun a => a) 0 15 0)
    ++ word_addresses 0 (Z.to_nat (word_count 0 15))
         (Z.to_nat (8 - word_count 0 15 mod 8)) /\
  15 ∈ bytes_read (snd (calcCRCFlashBurst_run (fun a => a) 0 15 0)).
Proof.
  assert (H0 : U32.in_range 0) by (unfold U32.in_range, U32.modulus; lia).
  assert (H15 : U32.in_range 15) by (unfold U32.in_range, U32.modulus; lia).
  assert (Hle : 0 <= 15) by lia.
  assert (Hnz : word_count 0 15 <> 0) by (vm_compute; discriminate).
  assert (Hpart : word_count 0 15 mod 8 <> 0) by (vm_compute; discriminate).
  pose proof (calcCRCFlashBurst_overread (fun a => a) 0 15 0 H0 H15 Hle Hnz
                Hpart) as H.
  cbv zeta in H.
  destruct H as (_ & Hlog & _ & _ & _ & _ & _ & Hend & _).
  split; [exact Hlog | exact Hend].
Defined.

(** ** The firmware-end scan *)

Section Scan.

Variable mem : Z -> Z.

Lemma sub_2_above (e : Z) :
  FIRMWARE_START < e <= FLASH_TOP -> U32.sub e 2 = e - 2.
Proof.
  unfold FIRMWARE_START, FLASH_TOP, U32.sub, U32.wrap, U32.modulus.
  intros H. apply Z.mod_small. lia.
Qed.

(** Started on an even address above the lower bound, with only erased
    words above it and one unit of fuel per word down to the bound, the
    loop returns a firmware end. *)
Lemma scan_loop_finds (fuel : nat) :
  forall (e : Z) (log : list Z),
    (1 <= fuel)%nat ->
    e = FIRMWARE_START + 2 * Z.of_nat fuel ->
    e <= FLASH_TOP ->
    (forall a, e <= a < FLASH_TOP -> a mod 2 = 0 -> mem a = ERASED) ->
    exists (e' : Z) (log' : list Z),
      scan_loop mem fuel e log = Some (e', log') /\
      is_firmware_end mem e'.
Proof.
  induction fuel as [| fuel IH]; intros e log Hfuel He Htop Herased;
    [lia |].
  assert (Heven : e mod 2 = 0).
  { rewrite He. unfold FIRMWARE_START.
    replace (253952 + 2 * Z.of_nat (S fuel))
      with ((126976 + Z.of_nat (S fuel)) * 2) by lia.
    apply Z.mod_mul. lia. }
  cbn [scan_loop]. unfold read.
  rewrite sub_2_above by lia.
  destruct (Z.eqb_spec (mem (e - 2)) ERASED) as [Hw | Hw]; cbn [negb].
  - destruct (Z.eqb_spec (e - 2) FIRMWARE_START) as [Hb | Hb]; cbn [negb].
    + (* the lower bound is reached *)
      exists (e - 2), (log ++ [e - 2]). split; [reflexivity |].
      unfold is_firmware_end. rewrite Hb.
      split; [unfold FIRMWARE_START, FLASH_TOP; lia |].
      split; [reflexivity |].
      split; [| left; reflexivity].
      intros a Ha Ha2.
      destruct (Z.eq_dec a (e - 2)) as [-> | Hne]; [exact Hw |].
      apply Herased; [| exact Ha2].
      revert Heven Ha2. Z.div_mod_to_equations. lia.
    + (* one more word down *)
      apply IH.
      * lia.
      * lia.
      * lia.
      * intros a Ha Ha2.
        destruct (Z.eq_dec a (e - 2)) as [-> | Hne]; [exact Hw |].
        apply Herased; [| exact Ha2].
        revert Heven Ha2. Z.div_mod_to_equations. lia.
  - (* a programmed word just below: the scan stops here *)
    exists e, (log ++ [e - 2]). split; [reflexivity |].
    unfold is_firmware_end.
    split; [unfold FIRMWARE_START in *; lia |].
    split; [exact Heven |].
    split; [exact Herased | right; exact Hw].
Qed.

(** There is only one firmware end. *)
Lemma is_firmware_end_unique (e1 e2 : Z) :
  is_firmware_end mem e1 -> is_firmware_end mem e2 -> e1 = e2.
Proof.
  assert (Hlt : forall x y, is_firmware_end mem x -> is_firmware_end mem y ->
                            ~ x < y).
  { intros x y (Hx & Hxe & Hxer & _) (Hy & Hye & _ & Hylow) Hxy.
    destruct Hylow as [-> | Hprog]; [lia |].
    apply Hprog, Hxer.
    - revert Hxe Hye. Z.div_mod_to_equations. lia.
    - revert Hye. Z.div_mod_to_equations. lia. }
  intros H1 H2.
  pose proof (Hlt e1 e2 H1 H2). pose proof (Hlt e2 e1 H2 H1). lia.
Qed.

End Scan.

(** C9: over any memory content the scan of [startLCDTest] returns, and
    what it returns is the address reached by stepping down from 0x40000
    two bytes at a time while the word just below reads 0xFFFF: an even
    address not below 0x3E000 with only erased words from there to the
    top, which is 0x3E000 itself or has a programmed word just below.
    No other address has that property. *)
Theorem firmware_end_found (mem : Z -> Z) :
  exists e : Z,
    firmware_end mem = Some e /\
    is_firmware_end mem e /\
    (forall e' : Z, is_firmware_end mem e' -> e' = e).
Proof.
  destruct (scan_loop_finds mem scan_fuel FLASH_TOP [])
    as (e & log & Hrun & Hend).
  - vm_compute. lia.
  - reflexivity.
  - lia.
  - intros a Ha. lia.
  - exists e. unfold firmware_end, firmware_end_run. rewrite Hrun.
    split; [reflexivity |].
    split; [exact Hend |].
    intros e' He'. apply (is_firmware_end_unique mem); assumption.
Qed.

Example firmware_end_ex :
  firmware_end (fun a => if a <? 0x3F000 then 0x940C else 0xFFFF)
  = Some 0x3F000.
Proof. vm_compute. reflexivity. Qed.

Example firmware_end_blank : firmware_end (fun _ => 0xFFFF) = Some 0x3E000.
Proof. vm_compute. reflexivity. Qed.

(** A bootloader region programmed up to 0x3E100 only: the scan ends at
    0x3E100, the address from which [startLCDTest] starts the second
    checksum. *)
Example firmware_end_service_only :
  firmware_end (fun a => if a <? 0x3E100 then 0x940C else 0xFFFF)
  = Some 0x3E100.
Proof. vm_compute. reflexivity. Qed.

(** ** The runner monad *)

Lemma bind_Done {A B} (m : M A) (k : A -> M B) (st st1 : state) (a : A) :
  m st = Done (a, st1) -> bind m k st = k a st1.
Proof. intros H. unfold bind. rewrite H. reflexivity. Qed.

Lemma bind_inv {A B} (m : M A) (k : A -> M B) (st : state)
    (x : B * state) :
  bind m k st = Done x ->
  exists (a : A) (st1 : state), m st = Done (a, st1) /\ k a st1 = Done x.
Proof.
  unfold bind. destruct (m st) as [[a st1] | |]; intros H;
    [| discriminate H | discriminate H].
  exists a, st1. split; [reflexivity | exact H].
Qed.

(** ** The gate *)

(** [awaitRelease] acts on the samples and the display as [gate] says
    and leaves everything else alone, also when it comes to a halt. *)
Lemma awaitRelease_gate (st : state) :
  awaitRelease st
  = match gate (samples (hw st)) with
    | Done (ops, tr) => Done (tt, after_gate ops tr st)
    | Stalled ops => Stalled (after_gate ops [] st)
    | Undefined => Undefined
    end.
Proof.
  destruct st as [cnt res [smp disp ser]].
  unfold awaitRelease, gate, after_gate, release_prompt.
  unfold bind, millis, polling, isSelectPressed, showMessage, to_display,
    set_samples, with_hw, ret, out_of_samples.
  cbn -[wait_pressed wait_released RELEASE_MESSAGE U32.wrap].
  destruct smp as [| t0 tr1]; [rewrite app_nil_r; reflexivity |].
  cbn -[wait_pressed wait_released RELEASE_MESSAGE U32.wrap].
  destruct (wait_pressed (U32.wrap (at_ms t0)) tr1) as [tr2 | [] |];
    [| cbn; rewrite app_nil_r; reflexivity | reflexivity].
  cbn -[wait_pressed wait_released RELEASE_MESSAGE U32.wrap].
  destruct tr2 as [| c tr3]; [rewrite app_nil_r; reflexivity |].
  cbn -[wait_pressed wait_released RELEASE_MESSAGE U32.wrap].
  destruct (select c).
  - cbn -[wait_pressed wait_released RELEASE_MESSAGE U32.wrap].
    destruct (wait_released tr3) as [tr4 | [] |]; [| reflexivity | reflexivity].
    cbn -[RELEASE_MESSAGE].
    rewrite <- app_assoc. reflexivity.
  - cbn. rewrite app_nil_r. reflexivity.
Qed.

Lemma rounds_cons (p m : sample) (ps : list (sample * sample)) :
  rounds ((p, m) :: ps) = p :: m :: rounds ps.
Proof. reflexivity. Qed.

Lemma wait_released_held (held : list sample) (r : sample)
    (rest : list sample) :
  Forall pressed held -> released r ->
  wait_released (held ++ r :: rest) = Done rest.
Proof.
  intros Hheld Hr. induction Hheld as [| h held Hh _ IH]; cbn.
  - rewrite Hr. reflexivity.
  - rewrite Hh. exact IH.
Qed.

Lemma wait_released_inv (tr rest : list sample) :
  wait_released tr = Done rest ->
  exists (held : list sample) (r : sample),
    tr = held ++ r :: rest /\ Forall pressed held /\ released r.
Proof.
  induction tr as [| s tr IH]; cbn; [discriminate |].
  destruct (select s) eqn:Es.
  - intros H. destruct (IH H) as (held & r & -> & Hheld & Hr).
    exists (s :: held), r. split; [reflexivity |].
    split; [constructor; assumption | exact Hr].
  - intros [= ->]. exists [], s. split; [reflexivity |].
    split; [constructor | exact Es].
Qed.

(** The first loop goes on through quiet passes. *)
Lemma wait_pressed_rounds (t0 : sample) (ps : list (sample * sample))
    (tr : list sample) :
  Forall (quiet t0) ps ->
  wait_pressed (U32.wrap (at_ms t0)) (rounds ps ++ tr)
  = wait_pressed (U32.wrap (at_ms t0)) tr.
Proof.
  intros Hps. induction Hps as [| [p m] ps [Hp Hm] _ IH]; [reflexivity |].
  rewrite rounds_cons. cbn [app wait_pressed].
  unfold pressed in Hp. cbn [fst snd] in Hp, Hm. rewrite Hp.
  unfold elapsed in Hm.
  destruct (Z.ltb_spec (U32.sub (U32.wrap (at_ms m)) (U32.wrap (at_ms t0)))
              1000); [exact IH | lia].
Qed.

(** Every way for the first loop to end: after some quiet passes, on a
    poll that reads released, or on a clock reading of 1000 ms or more
    after a poll that reads pressed. *)
Lemma wait_pressed_inv (t0 : sample) (n : nat) :
  forall tr rest : list sample,
    (length tr <= n)%nat ->
    wait_pressed (U32.wrap (at_ms t0)) tr = Done rest ->
    exists ps : list (sample * sample),
      Forall (quiet t0) ps /\
      ((exists p, tr = rounds ps ++ p :: rest /\ released p) \/
       (exists p m, tr = rounds ps ++ p :: m :: rest /\
                    pressed p /\ 1000 <= elapsed t0 m)).
Proof.
  induction n as [| n IH]; intros tr rest Hlen H.
  - destruct tr; [discriminate H | cbn in Hlen; lia].
  - destruct tr as [| p tr1]; [discriminate H |].
    cbn [wait_pressed] in H. destruct (select p) eqn:Ep.
    + destruct tr1 as [| m tr2]; [discriminate H |].
      destruct (Z.ltb_spec (U32.sub (U32.wrap (at_ms m)) (U32.wrap (at_ms t0)))
                  1000) as [Hm | Hm].
      * destruct (IH tr2 rest) as (ps & Hps & Hshape);
          [cbn in Hlen; lia | exact H |].
        exists ((p, m) :: ps). split.
        { constructor; [split; [exact Ep | exact Hm] | exact Hps]. }
        destruct Hshape as [(q & -> & Hq) | (q & m' & -> & Hq & Hm')].
        { left. exists q. split; [reflexivity | exact Hq]. }
        { right. exists q, m'. split; [reflexivity |]. split; assumption. }
      * injection H as ->. exists []. split; [constructor |].
        right. exists p, m. split; [reflexivity |].
        split; [exact Ep | exact Hm].
    + injection H as ->. exists []. split; [constructor |].
      left. exists p. split; [reflexivity | exact Ep].
Qed.

Lemma wait_pressed_release (t0 : sample) (ps : list (sample * sample))
    (p : sample) (rest : list sample) :
  Forall (quiet t0) ps -> released p ->
  wait_pressed (U32.wrap (at_ms t0)) (rounds ps ++ p :: rest) = Done rest.
Proof.
  intros Hps Hp. rewrite wait_pressed_rounds by exact Hps.
  cbn [wait_pressed]. rewrite Hp. reflexivity.
Qed.

Lemma wait_pressed_timeout (t0 : sample) (ps : list (sample * sample))
    (p m : sample) (rest : list sample) :
  Forall (quiet t0) ps -> pressed p -> 1000 <= elapsed t0 m ->
  wait_pressed (U32.wrap (at_ms t0)) (rounds ps ++ p :: m :: rest)
  = Done rest.
Proof.
  intros Hps Hp Hm. rewrite wait_pressed_rounds by exact Hps.
  cbn [wait_pressed]. rewrite Hp. unfold elapsed in Hm.
  destruct (Z.ltb_spec (U32.sub (U32.wrap (at_ms m)) (U32.wrap (at_ms t0)))
              1000); [lia | reflexivity].
Qed.

(** The poll after the first loop decides: released, the gate is done
    and has shown nothing; pressed, it shows the prompt and polls until
    a sample reads released. *)
Lemma gate_check (t0 c : sample) (before after : list sample) :
  wait_pressed (U32.wrap (at_ms t0)) (before ++ c :: after)
  = Done (c :: after) ->
  gate (t0 :: before ++ c :: after)
  = if select c then
      match wait_released after with
      | Done rest => Done (release_prompt, rest)
      | Blocked => Stalled [ShowMessage RELEASE_MESSAGE]
      | Undefined => Undefined
      end
    else Done ([], after).
Proof.
  intros H. unfold gate. rewrite H. reflexivity.
Qed.

(** Every way for the gate to return. *)
Lemma gate_inv (tr : list sample) (ops : list display_op)
    (rest : list sample) :
  gate tr = Done (ops, rest) ->
  exists (t0 : sample) (ps : list (sample * sample))
         (loop_end : list sample) (c : sample) (after : list sample),
    tr = t0 :: rounds ps ++ loop_end ++ c :: after /\
    Forall (quiet t0) ps /\
    ((exists p, loop_end = [p] /\ released p) \/
     (exists p m, loop_end = [p; m] /\ pressed p /\ 1000 <= elapsed t0 m)) /\
    ((released c /\ ops = [] /\ rest = after) \/
     (pressed c /\ ops = release_prompt /\
      exists (held : list sample) (r : sample),
        after = held ++ r :: rest /\ Forall pressed held /\ released r)).
Proof.
  unfold gate. destruct tr as [| t0 tr1]; [discriminate |].
  destruct (wait_pressed (U32.wrap (at_ms t0)) tr1) as [tr2 | [] |] eqn:Hloop;
    [| discriminate | discriminate].
  destruct tr2 as [| c after]; [discriminate |].
  destruct (wait_pressed_inv t0 (length tr1) tr1 (c :: after) (le_n _) Hloop)
    as (ps & Hps & Hshape).
  intros H. exists t0, ps.
  assert (Hcheck :
    (released c /\ ops = [] /\ rest = after) \/
    (pressed c /\ ops = release_prompt /\
     exists (held : list sample) (r : sample),
       after = held ++ r :: rest /\ Forall pressed held /\ released r)).
  { destruct (select c) eqn:Ec.
    - right. destruct (wait_released after) as [tr4 | [] |] eqn:Hrel;
        [| discriminate H | discriminate H].
      injection H as <- <-. split; [exact Ec |]. split; [reflexivity |].
      apply wait_released_inv, Hrel.
    - left. injection H as <- <-. split; [exact Ec |].
      split; reflexivity. }
  destruct Hshape as [(p & -> & Hp) | (p & m & -> & Hp & Hm)].
  - exists [p], c, after. split; [reflexivity |]. split; [exact Hps |].
    split; [left; exists p; split; [reflexivity | exact Hp] | exact Hcheck].
  - exists [p; m], c, after. split; [reflexivity |]. split; [exact Hps |].
    split; [| exact Hcheck].
    right. exists p, m. split; [reflexivity |]. split; assumption.
Qed.

Lemma wait_released_pressed (held : list sample) :
  Forall pressed held -> wait_released held = Blocked.
Proof.
  intros Hheld. induction Hheld as [| h held Hh _ IH]; cbn [wait_released].
  - reflexivity.
  - rewrite Hh. exact IH.
Qed.

Lemma wait_released_Blocked_inv (tr : list sample) :
  wait_released tr = Blocked -> Forall pressed tr.
Proof.
  induction tr as [| s tr IH]; cbn [wait_released]; [constructor |].
  destruct (select s) eqn:Es; [| discriminate].
  intros H. constructor; [exact Es | exact (IH H)].
Qed.

(** Every way for the gate to come to a halt with the prompt on the
    display: the poll after the first loop has read pressed, and so has
    every poll since. *)
Lemma gate_Stalled_inv (tr : list sample) (ops : list display_op) :
  gate tr = Stalled ops ->
  ops = [] \/
  (ops = [ShowMessage RELEASE_MESSAGE] /\
   exists (t0 : sample) (ps : list (sample * sample))
          (loop_end : list sample) (c : sample) (held : list sample),
     tr = t0 :: rounds ps ++ loop_end ++ c :: held /\
     Forall (quiet t0) ps /\
     ((exists p, loop_end = [p] /\ released p) \/
      (exists p m, loop_end = [p; m] /\ pressed p /\
                   1000 <= elapsed t0 m)) /\
     pressed c /\ Forall pressed held).
Proof.
  unfold gate. destruct tr as [| t0 tr1]; [intros [= <-]; left; reflexivity |].
  destruct (wait_pressed (U32.wrap (at_ms t0)) tr1) as [tr2 | [] |] eqn:Hloop;
    [| intros [= <-]; left; reflexivity | discriminate].
  destruct tr2 as [| c after]; [intros [= <-]; left; reflexivity |].
  destruct (select c) eqn:Ec; [| discriminate].
  destruct (wait_released after) as [tr4 | [] |] eqn:Hrel;
    [discriminate | | discriminate].
  intros [= <-]. right. split; [reflexivity |].
  destruct (wait_pressed_inv t0 (length tr1) tr1 (c :: after) (le_n _) Hloop)
    as (ps & Hps & Hshape).
  apply wait_released_Blocked_inv in Hrel.
  exists t0, ps.
  destruct Hshape as [(p & -> & Hp) | (p & m & -> & Hp & Hm)].
  - exists [p], c, after. split; [reflexivity |]. split; [exact Hps |].
    split; [left; exists p; split; [reflexivity | exact Hp] |].
    split; [exact Ec | exact Hrel].
  - exists [p; m], c, after. split; [reflexivity |]. split; [exact Hps |].
    split; [| split; [exact Ec | exact Hrel]].
    right. exists p, m. split; [reflexivity |]. split; assumption.
Qed.

(** A press that is released at one poll and seen again at the next
    shows the prompt although the whole trace spans 3 ms. *)
Lemma gate_short_press_counterexample :
  let tr := [ {| at_ms := 0; select := false |};
              {| at_ms := 1; select := false |};
              {| at_ms := 2; select := true |};
              {| at_ms := 3; select := false |} ] in
  let st := {| testCnt := 0; test_results := [];
               hw := {| samples := tr; display := []; serial := [] |} |} in
  Forall (fun s => 0 <= at_ms s < 1000) tr /\
  awaitRelease st = Done (tt, after_gate release_prompt [] st).
Proof.
  cbv zeta. split.
  - repeat constructor; cbn; lia.
  - rewrite awaitRelease_gate. reflexivity.
Qed.

(** C8 (amended): the gate returns only after a poll that reads SELECT
    released, having shown either nothing or the release prompt followed
    by its clearing, and the prompt is shown exactly when the poll made
    after the first loop reads pressed. The prompt goes on the display
    after that poll and before the next one, it stays there, not
    cleared, as long as the polls read pressed, during which the gate
    does not return, and it is cleared once a poll has read released,
    upon which the gate returns. When SELECT reads pressed at every
    poll until the clock shows 1000 ms and at the next poll, the prompt
    is shown and the gate returns at the first later poll that reads
    released, as for a button held 1500 ms. When SELECT reads released
    at a poll of the first loop and at the next poll (for example when
    it is never pressed), nothing is shown. *)
Theorem awaitRelease_returns_after_release :
  (forall st st' : state,
     awaitRelease st = Done (tt, st') ->
     exists (ops : list display_op) (rest : list sample)
            (t0 : sample) (ps : list (sample * sample))
            (loop_end : list sample) (c : sample) (after : list sample),
       st' = after_gate ops rest st /\
       samples (hw st) = t0 :: rounds ps ++ loop_end ++ c :: after /\
       Forall (quiet t0) ps /\
       ((exists p, loop_end = [p] /\ released p) \/
        (exists p m, loop_end = [p; m] /\ pressed p /\
                     1000 <= elapsed t0 m)) /\
       ((released c /\ ops = [] /\ rest = after) \/
        (pressed c /\ ops = release_prompt /\
         exists (held : list sample) (r : sample),
           after = held ++ r :: rest /\ Forall pressed held /\
           released r))) /\
  (forall st halted : state,
     awaitRelease st = Stalled halted ->
     exists ops : list display_op,
       halted = after_gate ops [] st /\
       (ops = [] \/
        (ops = [ShowMessage RELEASE_MESSAGE] /\
         exists (t0 : sample) (ps : list (sample * sample))
                (loop_end : list sample) (c : sample) (held : list sample),
           samples (hw st) = t0 :: rounds ps ++ loop_end ++ c :: held /\
           Forall (quiet t0) ps /\
           ((exists p, loop_end = [p] /\ released p) \/
            (exists p m, loop_end = [p; m] /\ pressed p /\
                         1000 <= elapsed t0 m)) /\
           pressed c /\ Forall pressed held))) /\
  (forall (st : state) (t0 : sample) (ps : list (sample * sample))
          (p m c : sample) (held : list sample) (r : sample)
          (rest : list sample),
     samples (hw st) = t0 :: rounds ps ++ p :: m :: c :: held ++ r :: rest ->
     Forall (quiet t0) ps -> pressed p -> 1000 <= elapsed t0 m ->
     pressed c -> Forall pressed held -> released r ->
     awaitRelease st = Done (tt, after_gate release_prompt rest st)) /\
  (forall (st : state) (t0 : sample) (ps : list (sample * sample))
          (loop_end : list sample) (c : sample) (held : list sample),
     samples (hw st) = t0 :: rounds ps ++ loop_end ++ c :: held ->
     Forall (quiet t0) ps ->
     ((exists p, loop_end = [p] /\ released p) \/
      (exists p m, loop_end = [p; m] /\ pressed p /\
                   1000 <= elapsed t0 m)) ->
     pressed c -> Forall pressed held ->
     awaitRelease st
     = Stalled (after_gate [ShowMessage RELEASE_MESSAGE] [] st)) /\
  (forall (st : state) (t0 : sample) (ps : list (sample * sample))
          (p m : sample),
     samples (hw st) = t0 :: rounds ps ++ [p; m] ->
     Forall (quiet t0) ps -> pressed p -> 1000 <= elapsed t0 m ->
     awaitRelease st = Stalled (after_gate [] [] st)) /\
  (forall (st : state) (t0 : sample) (ps : list (sample * sample))
          (p c : sample) (rest : list sample),
     samples (hw st) = t0 :: rounds ps ++ p :: c :: rest ->
     Forall (quiet t0) ps -> released p -> released c ->
     awaitRelease st = Done (tt, after_gate [] rest st)) /\
  (forall st : state,
     samples (hw st) = held_1500 ->
     awaitRelease st
     = Done (tt, after_gate release_prompt (drop 1501 held_1500) st)) /\
  (forall st : state,
     samples (hw st) = take 1001 held_1500 ->
     awaitRelease st = Stalled (after_gate [] [] st)) /\
  (forall st : state,
     samples (hw st) = take 1002 held_1500
     \/ samples (hw st) = take 1500 held_1500 ->
     awaitRelease st
     = Stalled (after_gate [ShowMessage RELEASE_MESSAGE] [] st)).
Proof.
  split; [| split; [| split; [| split; [| split; [| split; [| split;
    [| split]]]]]]].
  - intros st st' H. rewrite awaitRelease_gate in H.
    destruct (gate (samples (hw st))) as [[ops rest] | |] eqn:Hg;
      [| discriminate H | discriminate H].
    injection H as <-.
    destruct (gate_inv _ _ _ Hg)
      as (t0 & ps & loop_end & c & after & Htr & Hps & Hend & Hcheck).
    exists ops, rest, t0, ps, loop_end, c, after.
    split; [reflexivity |]. split; [exact Htr |].
    split; [exact Hps |]. split; [exact Hend | exact Hcheck].
  - intros st halted H. rewrite awaitRelease_gate in H.
    destruct (gate (samples (hw st))) as [[ops rest] | ops |] eqn:Hg;
      [discriminate H | | discriminate H].
    injection H as <-. exists ops. split; [reflexivity |].
    exact (gate_Stalled_inv _ _ Hg).
  - intros st t0 ps p m c held r rest Htr Hps Hp Hm Hc Hheld Hr.
    rewrite awaitRelease_gate, Htr.
    change (rounds ps ++ p :: m :: c :: held ++ r :: rest)
      with (rounds ps ++ [p; m] ++ c :: held ++ r :: rest).
    rewrite app_assoc, gate_check.
    + rewrite Hc, wait_released_held by assumption. reflexivity.
    + rewrite <- app_assoc. apply wait_pressed_timeout; assumption.
  - intros st t0 ps loop_end c held Htr Hps Hend Hc Hheld.
    rewrite awaitRelease_gate, Htr.
    rewrite app_assoc, gate_check.
    + rewrite Hc, wait_released_pressed by assumption. reflexivity.
    + rewrite <- app_assoc.
      destruct Hend as [(p & -> & Hp) | (p & m & -> & Hp & Hm)].
      * apply wait_pressed_release; assumption.
      * apply wait_pressed_timeout; assumption.
  - intros st t0 ps p m Htr Hps Hp Hm.
    rewrite awaitRelease_gate, Htr. unfold gate.
    rewrite (wait_pressed_timeout t0 ps p m [] Hps Hp Hm). reflexivity.
  - intros st t0 ps p c rest Htr Hps Hp Hc.
    rewrite awaitRelease_gate, Htr.
    change (rounds ps ++ p :: c :: rest)
      with (rounds ps ++ [p] ++ c :: rest).
    rewrite app_assoc, gate_check.
    + rewrite Hc. reflexivity.
    + rewrite <- app_assoc. apply wait_pressed_release; assumption.
  - intros st Htr. rewrite awaitRelease_gate, Htr.
    assert (E : gate held_1500
                = Done (release_prompt, drop 1501 held_1500))
      by (vm_compute; reflexivity).
    rewrite E. reflexivity.
  - intros st Htr. rewrite awaitRelease_gate, Htr.
    assert (E : gate (take 1001 held_1500) = Stalled [])
      by (vm_compute; reflexivity).
    rewrite E. reflexivity.
  - intros st [Htr | Htr]; rewrite awaitRelease_gate, Htr.
    + assert (E : gate (take 1002 held_1500)
                  = Stalled [ShowMessage RELEASE_MESSAGE])
        by (vm_compute; reflexivity).
      rewrite E. reflexivity.
    + assert (E : gate (take 1500 held_1500)
                  = Stalled [ShowMessage RELEASE_MESSAGE])
        by (vm_compute; reflexivity).
      rewrite E. reflexivity.
Qed.

(** ** One test *)

Section DoTest.

Variable DEVICE_SIZE : nat.

(** Once the gate lets it start, [doTest] returns provided the name fits
    the [device] field and the next slot of the buffer exists. *)
Lemma doTest_tested (what : string) (testFunc : probe) (st st1 : state) :
  awaitRelease st = Done (tt, st1) ->
  (String.length what < DEVICE_SIZE)%nat ->
  0 <= testCnt st1 < Z.of_nat (length (test_results st1)) ->
  doTest DEVICE_SIZE what testFunc st
  = Done (relabel what (testFunc (announce what (testCnt st1) (hw st1))).1,
          tested what testFunc st1).
Proof.
  intros Hgate Hname Hslot.
  unfold doTest. rewrite (bind_Done _ _ _ _ _ Hgate).
  destruct st1 as [cnt res w].
  cbn [testCnt test_results hw] in Hslot.
  unfold tested, announce, conclude, relabel.
  cbn [testCnt test_results hw].
  unfold bind, to_serial, showMessage, showStatus, to_display, with_hw,
    get_testCnt, call, strcpy_device, store_result, incr_testCnt, ret.
  cbn [testCnt test_results hw samples display serial fst snd].
  destruct (testFunc _) as [pr w2] eqn:Ef.
  destruct (Nat.ltb_spec (String.length what) DEVICE_SIZE); [| lia].
  cbn [testCnt test_results hw samples display serial fst snd
       device success status].
  destruct (Z.leb_spec 0 cnt); [| lia].
  destruct (Z.ltb_spec cnt (Z.of_nat (length res))); [| lia].
  cbn [andb testCnt test_results hw samples display serial fst snd
       device success status].
  reflexivity.
Qed.

(** [doTest] returns in no other way. *)
Lemma doTest_inv (what : string) (testFunc : probe) (st st' : state)
    (r : TestResult) :
  doTest DEVICE_SIZE what testFunc st = Done (r, st') ->
  exists st1 : state,
    awaitRelease st = Done (tt, st1) /\
    (String.length what < DEVICE_SIZE)%nat /\
    0 <= testCnt st1 < Z.of_nat (length (test_results st1)) /\
    r = relabel what (testFunc (announce what (testCnt st1) (hw st1))).1 /\
    st' = tested what testFunc st1.
Proof.
  intros H.
  destruct (awaitRelease st) as [[[] st1] | |] eqn:Hgate.
  2, 3: unfold doTest, bind in H; rewrite Hgate in H; discriminate H.
  exists st1. split; [reflexivity |].
  destruct (Nat.ltb_spec (String.length what) DEVICE_SIZE) as [Hname | Hname].
  - destruct (Z.leb_spec 0 (testCnt st1)) as [Hlo | Hlo].
    + destruct (Z.ltb_spec (testCnt st1)
                  (Z.of_nat (length (test_results st1)))) as [Hhi | Hhi].
      * rewrite (doTest_tested what testFunc st st1 Hgate Hname) in H
          by lia.
        injection H as <- <-.
        split; [exact Hname |]. split; [lia |]. split; reflexivity.
      * exfalso. revert H. unfold doTest.
        rewrite (bind_Done _ _ _ _ _ Hgate).
        destruct st1 as [cnt res w]. cbn [testCnt test_results] in Hlo, Hhi.
        unfold bind, to_serial, showMessage, showStatus, to_display,
          with_hw, get_testCnt, call, strcpy_device, store_result,
          incr_testCnt, ret.
        cbn [testCnt test_results hw samples display serial fst snd].
        destruct (testFunc _) as [pr w2].
        destruct (Nat.ltb_spec (String.length what) DEVICE_SIZE); [| lia].
        cbn [testCnt test_results hw samples display serial fst snd].
        destruct (Z.ltb_spec cnt (Z.of_nat (length res))); [lia |].
        rewrite andb_false_r. discriminate.
    + exfalso. revert H. unfold doTest.
      rewrite (bind_Done _ _ _ _ _ Hgate).
      destruct st1 as [cnt res w]. cbn [testCnt test_results] in Hlo.
      unfold bind, to_serial, showMessage, showStatus, to_display,
        with_hw, get_testCnt, call, strcpy_device, store_result,
        incr_testCnt, ret.
      cbn [testCnt test_results hw samples display serial fst snd].
      destruct (testFunc _) as [pr w2].
      destruct (Nat.ltb_spec (String.length what) DEVICE_SIZE); [| lia].
      cbn [testCnt test_results hw samples display serial fst snd].
      destruct (Z.leb_spec 0 cnt); [lia |].
      discriminate.
  - exfalso. revert H. unfold doTest.
    rewrite (bind_Done _ _ _ _ _ Hgate).
    destruct st1 as [cnt res w].
    unfold bind, to_serial, showMessage, showStatus, to_display,
      with_hw, get_testCnt, call, strcpy_device, store_result,
      incr_testCnt, ret, undefined.
    cbn [testCnt test_results hw samples display serial fst snd].
    destruct (testFunc _) as [pr w2].
    destruct (Nat.ltb_spec (String.length what) DEVICE_SIZE); [lia |].
    discriminate.
Qed.

End DoTest.

(** ** The report *)

Lemma string_app_assoc (a b c : string) : (a +:+ b) +:+ c = a +:+ (b +:+ c).
Proof.
  induction a as [| x a IH]; [reflexivity |].
  change (String x ((a +:+ b) +:+ c) = String x (a +:+ (b +:+ c))).
  f_equal. exact IH.
Qed.

Lemma lines_from_app (a b : list serial_op) (cur : string) :
  lines_from cur (a ++ b)
  = lines_from cur a ++ lines_from (unfinished cur a) b.
Proof.
  revert cur. induction a as [| [text | text |] a IH]; intros cur;
    cbn [app lines_from unfinished].
  - reflexivity.
  - apply IH.
  - rewrite IH. reflexivity.
  - apply IH.
Qed.

Lemma unfinished_app (a b : list serial_op) (cur : string) :
  unfinished cur (a ++ b) = unfinished (unfinished cur a) b.
Proof.
  revert cur. induction a as [| [text | text |] a IH]; intros cur;
    cbn [app unfinished]; [reflexivity | apply IH ..].
Qed.

Lemma lines_from_failure (r : TestResult) :
  lines_from "" (failure_ops r) = [failure_line r] /\
  unfinished "" (failure_ops r) = "".
Proof.
  unfold failure_ops, failure_line. cbn [lines_from unfinished].
  split; [| reflexivity]. f_equal.
  change ("" +:+ "- ") with "- ".
  rewrite !string_app_assoc. reflexivity.
Qed.

(** After the header, or with nothing on the current line, the loop
    writes one line per failing result. *)
Lemma lines_from_report_ops_false (todo : list TestResult) :
  lines_from "" (report_ops false todo) = failure_line <$> failing todo /\
  unfinished "" (report_ops false todo) = "".
Proof.
  induction todo as [| r todo [IHl IHu]]; [split; reflexivity |].
  cbn [report_ops]. unfold failing in *.
  destruct (success r) eqn:Er.
  - rewrite filter_cons_False by (rewrite Er; discriminate).
    split; assumption.
  - rewrite filter_cons_True by exact Er.
    cbn [app].
    destruct (lines_from_failure r) as [Hl Hu].
    rewrite lines_from_app, unfinished_app, Hl, Hu, IHl, IHu.
    split; reflexivity.
Qed.

Lemma lines_from_report_ops (todo : list TestResult) :
  let ops := report_ops true todo
             ++ (if forallb success todo
                 then [Println "Testing completed: no problems found."]
                 else []) in
  lines_from "" ops = report_lines todo /\ unfinished "" ops = "".
Proof.
  cbv zeta. unfold report_lines, failing.
  induction todo as [| r todo [IHl IHu]]; [split; reflexivity |].
  cbn [report_ops forallb].
  destruct (success r) eqn:Er.
  - rewrite filter_cons_False by (rewrite Er; discriminate).
    cbn [andb]. split; assumption.
  - rewrite filter_cons_True by exact Er.
    cbn [andb]. rewrite app_nil_r.
    destruct (lines_from_failure r) as [Hl Hu].
    destruct (lines_from_report_ops_false todo) as [Hl' Hu'].
    unfold failing in Hl'.
    unfold header_ops. cbn [app lines_from unfinished].
    rewrite lines_from_app, unfinished_app, Hl, Hu, Hl', Hu'.
    split; reflexivity.
Qed.

Lemma logged_nil (st : state) : logged [] st = st.
Proof.
  destruct st as [cnt res [smp disp ser]]. unfold logged.
  cbn [testCnt test_results hw samples display serial].
  rewrite app_nil_r. reflexivity.
Qed.

Lemma logged_app (a b : list serial_op) (st : state) :
  logged b (logged a st) = logged (a ++ b) st.
Proof.
  unfold logged. cbn [testCnt test_results hw samples display serial].
  rewrite app_assoc. reflexivity.
Qed.

Lemma report_body_logged (r : TestResult) (flag : bool) (st : state) :
  report_body r flag st
  = Done (flag && success r,
          logged (if success r then []
                  else (if flag then header_ops else []) ++ failure_ops r)
            st).
Proof.
  unfold report_body. destruct (success r); cbn [negb].
  - rewrite andb_true_r, logged_nil. reflexivity.
  - rewrite andb_false_r. destruct flag.
    + unfold bind, to_serial, with_hw, ret. cbn. unfold logged.
      rewrite <- app_assoc. reflexivity.
    + unfold bind, to_serial, with_hw, ret. cbn. reflexivity.
Qed.

(** The report loop over the results [todo] that follow the results
    [done] in the buffer. *)
Lemma report_loop_logged (todo : list TestResult) :
  forall (done spare : list TestResult) (flag : bool) (st : state),
    test_results st = done ++ todo ++ spare ->
    report_loop (length todo) (Z.of_nat (length done)) flag st
    = Done (flag && forallb success todo,
            logged (report_ops flag todo) st).
Proof.
  induction todo as [| r todo IH]; intros done spare flag st Hres.
  - cbn [length report_loop forallb report_ops]. unfold ret.
    rewrite andb_true_r, logged_nil. reflexivity.
  - cbn [length report_loop].
    rewrite Nat2Z.id, Hres.
    change ((r :: todo) ++ spare) with (r :: todo ++ spare).
    rewrite list_lookup_middle by reflexivity.
    unfold bind. rewrite report_body_logged.
    replace (Z.of_nat (length done) + 1)
      with (Z.of_nat (length (done ++ [r])))
      by (rewrite length_app; cbn [length]; lia).
    rewrite (IH (done ++ [r]) spare)
      by (unfold logged; cbn [test_results]; rewrite Hres, <- app_assoc;
          reflexivity).
    rewrite logged_app. cbn [forallb report_ops].
    destruct (success r).
    + rewrite andb_true_r. reflexivity.
    + cbn [andb]. rewrite !andb_false_r. cbn [andb].
      rewrite <- app_assoc. reflexivity.
Qed.

Lemma report_logged (recorded spare : list TestResult) (st : state) :
  testCnt st = Z.of_nat (length recorded) ->
  test_results st = recorded ++ spare ->
  report st
  = Done (tt, logged (report_ops true recorded
                      ++ (if forallb success recorded
                          then [Println
                                  "Testing completed: no problems found."]
                          else [])) st).
Proof.
  intros Hcnt Hres. unfold report, bind, get_testCnt.
  rewrite Hcnt, Nat2Z.id.
  change 0 with (Z.of_nat (length (@nil TestResult))).
  rewrite (report_loop_logged recorded [] spare true st) by exact Hres.
  cbn [andb]. destruct (forallb success recorded).
  - unfold to_serial, with_hw. rewrite <- logged_app. reflexivity.
  - unfold ret. rewrite app_nil_r. reflexivity.
Qed.

(** C4: for any recorded results the end of [setup] prints, when at
    least one result failed, the two header lines once and then one
    line [- <device> (<status>)] for each failing result, in the order
    of recording, and nothing for the others; when none failed it
    prints the single line that no problems were found. Nothing else
    is written and no line is left unfinished. *)
Theorem report_lists_failures (recorded spare : list TestResult)
    (w : world) :
  exists ops : list serial_op,
    report {| testCnt := Z.of_nat (length recorded);
              test_results := recorded ++ spare;
              hw := w |}
    = Done (tt, {| testCnt := Z.of_nat (length recorded);
                   test_results := recorded ++ spare;
                   hw := {| samples := samples w;
                            display := display w;
                            serial := serial w ++ ops |} |}) /\
    lines_from "" ops = report_lines recorded /\
    unfinished "" ops = "".
Proof.
  eexists. split.
  - rewrite (report_logged recorded spare) by reflexivity. reflexivity.
  - apply lines_from_report_ops.
Qed.

Example report_lines_ex :
  report_lines
    [ {| device := "LCD Screen"; success := true; status := "OK" |};
      {| device := "Flash"; success := false; status := "No response" |};
      {| device := "SRAM"; success := true; status := "OK" |};
      {| device := "Flash"; success := false; status := "No response" |} ]
  = ["Testing completed with errors.";
     "Please check the following components:";
     "- Flash (No response)"; "- Flash (No response)"].
Proof. reflexivity. Qed.

(** ** Nothing in the gate is undefined *)

Lemma wait_released_defined (tr : list sample) : wait_released tr <> Undefined.
Proof.
  induction tr as [| s tr IH]; cbn; [discriminate |].
  destruct (select s); [exact IH | discriminate].
Qed.

Lemma wait_pressed_defined (sel_start : Z) (n : nat) :
  forall tr : list sample,
    (length tr <= n)%nat -> wait_pressed sel_start tr <> Undefined.
Proof.
  induction n as [| n IH]; intros tr Hlen.
  - destruct tr; [discriminate | cbn in Hlen; lia].
  - destruct tr as [| p tr1]; [discriminate |].
    cbn [wait_pressed]. destruct (select p); [| discriminate].
    destruct tr1 as [| m tr2]; [discriminate |].
    destruct (U32.sub (U32.wrap (at_ms m)) sel_start <? 1000);
      [| discriminate].
    apply IH. cbn in Hlen. lia.
Qed.

Lemma awaitRelease_defined (st : state) : awaitRelease st <> Undefined.
Proof.
  rewrite awaitRelease_gate. unfold gate.
  destruct (samples (hw st)) as [| t0 tr1]; [discriminate |].
  pose proof (wait_pressed_defined (U32.wrap (at_ms t0)) _ tr1 (le_n _)) as H1.
  destruct (wait_pressed (U32.wrap (at_ms t0)) tr1) as [[| c tr3] | [] |];
    [discriminate | | discriminate | contradiction].
  destruct (select c); [| discriminate].
  pose proof (wait_released_defined tr3) as H2.
  destruct (wait_released tr3) as [tr4 | [] |];
    [discriminate | discriminate | contradiction].
Qed.

Lemma bind_defined {A B} (m : M A) (k : A -> M B) (st : state) :
  m st <> Undefined ->
  (forall (a : A) (st1 : state), m st = Done (a, st1) ->
     k a st1 <> Undefined) ->
  bind m k st <> Undefined.
Proof.
  intros Hm Hk. unfold bind.
  destruct (m st) as [[a st1] | |]; [| discriminate | contradiction].
  apply Hk. reflexivity.
Qed.

(** ** The result buffer over a run *)

Lemma awaitRelease_globals (st st1 : state) :
  awaitRelease st = Done (tt, st1) ->
  testCnt st1 = testCnt st /\ test_results st1 = test_results st.
Proof.
  rewrite awaitRelease_gate.
  destruct (gate (samples (hw st))) as [[ops rest] | |];
    [| discriminate | discriminate].
  intros [= <-]. split; reflexivity.
Qed.

Lemma with_hw_recorded (f : world -> world) (names : list string)
    (st st1 : state) (a : unit) :
  with_hw f st = Done (a, st1) -> recorded names st -> recorded names st1.
Proof. intros [= <- <-] H. exact H. Qed.

Lemma report_globals (st st' : state) :
  report st = Done (tt, st') ->
  testCnt st' = testCnt st /\ test_results st' = test_results st.
Proof.
  assert (Hbody : forall r flag s x s',
            report_body r flag s = Done (x, s') ->
            testCnt s' = testCnt s /\ test_results s' = test_results s).
  { intros r flag s x s'. rewrite report_body_logged.
    intros [= <- <-]. split; reflexivity. }
  assert (Hloop : forall n i flag s x s',
            report_loop n i flag s = Done (x, s') ->
            testCnt s' = testCnt s /\ test_results s' = test_results s).
  { induction n as [| n IH]; intros i flag s x s'; cbn [report_loop].
    - intros [= <- <-]. split; reflexivity.
    - destruct (test_results s !! Z.to_nat i) as [r |]; [| discriminate].
      intros H. apply bind_inv in H as (y & s1 & H1 & H2).
      apply Hbody in H1 as [E1 E2].
      apply IH in H2 as [E3 E4]. split; congruence. }
  unfold report. intros H.
  apply bind_inv in H as (cnt & s1 & [= <- <-] & H).
  apply bind_inv in H as (flag & s2 & H1 & H).
  apply Hloop in H1 as [E1 E2].
  destruct flag.
  - injection H as <-. split; assumption.
  - injection H as <-. split; assumption.
Qed.

Section Run.

Variable DEVICE_SIZE : nat.

(** What a completed [doTest] does to the globals: one result, labelled
    with the name, goes into the slot [testCnt] points at, which exists;
    the other slots keep what they hold; the counter moves on by one. *)
Lemma doTest_globals (what : string) (testFunc : probe) (st st' : state)
    (r : TestResult) :
  doTest DEVICE_SIZE what testFunc st = Done (r, st') ->
  0 <= testCnt st /\
  (Z.to_nat (testCnt st) < length (test_results st))%nat /\
  testCnt st' = testCnt st + 1 /\
  test_results st' = <[Z.to_nat (testCnt st) := r]> (test_results st) /\
  device r = what.
Proof.
  intros H.
  destruct (doTest_inv DEVICE_SIZE what testFunc st st' r H)
    as (st1 & Hgate & _ & Hslot & -> & ->).
  destruct (awaitRelease_globals st st1 Hgate) as [Hcnt Hres].
  rewrite Hcnt, Hres in Hslot.
  unfold tested. cbn [testCnt test_results]. rewrite Hcnt, Hres.
  split; [lia |]. split; [lia |]. split; [reflexivity |].
  split; reflexivity.
Qed.

Lemma doTest_recorded (names : list string) (what : string)
    (testFunc : probe) (st st' : state) (r : TestResult) :
  doTest DEVICE_SIZE what testFunc st = Done (r, st') ->
  recorded names st -> recorded (names ++ [what]) st'.
Proof.
  intros H (Hcnt & Hlen & Hnames).
  destruct (doTest_globals what testFunc st st' r H)
    as (_ & Hslot & Hcnt' & Hres' & Hdev).
  rewrite Hcnt, Nat2Z.id in Hslot, Hres'.
  unfold recorded. rewrite Hcnt', Hres', Hcnt, length_app, length_insert.
  cbn [length]. split; [lia |]. split; [exact Hlen |].
  rewrite Nat.add_1_r.
  rewrite (take_S_r _ _ r) by (apply list_lookup_insert_eq; exact Hslot).
  rewrite take_insert_ge by lia.
  rewrite fmap_app, Hnames. cbn [fmap list_fmap]. rewrite Hdev. reflexivity.
Qed.

(** With a free slot and a name that fits, [doTest] stays within what C
    defines. *)
Lemma doTest_defined (what : string) (testFunc : probe) (st : state) :
  (String.length what < DEVICE_SIZE)%nat ->
  0 <= testCnt st < Z.of_nat (length (test_results st)) ->
  doTest DEVICE_SIZE what testFunc st <> Undefined.
Proof.
  intros Hname Hslot.
  destruct (awaitRelease st) as [[[] st1] | |] eqn:Hgate.
  - destruct (awaitRelease_globals st st1 Hgate) as [Hcnt Hres].
    rewrite (doTest_tested DEVICE_SIZE what testFunc st st1 Hgate Hname)
      by (rewrite Hcnt, Hres; exact Hslot).
    discriminate.
  - unfold doTest, bind. rewrite Hgate. discriminate.
  - exfalso. exact (awaitRelease_defined st Hgate).
Qed.

Lemma report_defined (names : list string) (st : state) :
  recorded names st -> (length names <= RESULTS_LEN)%nat ->
  report st <> Undefined.
Proof.
  intros (Hcnt & Hlen & _) Hle.
  rewrite (report_logged (take (length names) (test_results st))
             (drop (length names) (test_results st))).
  - discriminate.
  - rewrite Hcnt, length_take, Hlen. f_equal. lia.
  - symmetry. apply take_drop.
Qed.

End Run.

(** C7: whatever result the probe returns, the result [doTest] stores in
    the next slot and returns to its caller carries the name given by
    the caller in [device], and the [success] and [status] the probe
    returned in this call, that is in the world in which [doTest] calls
    it: the one the gate has left, with the test announced. The world
    [doTest] leaves is the one this call of the probe has left, with the
    outcome shown and logged. A name the probe writes in [device] is
    not observable: probes that differ in nothing else give the same
    run of [doTest]. *)
Theorem doTest_overwrites_device (DEVICE_SIZE : nat) (what : string)
    (testFunc : probe) (st st1 : state) :
  awaitRelease st = Done (tt, st1) ->
  (String.length what < DEVICE_SIZE)%nat ->
  0 <= testCnt st < Z.of_nat (length (test_results st)) ->
  let w := announce what (testCnt st) (hw st1) in
  let pr := (testFunc w).1 in
  let r := {| device := what; success := success pr; status := status pr |} in
  (exists st' : state,
     doTest DEVICE_SIZE what testFunc st = Done (r, st') /\
     test_results st' = <[Z.to_nat (testCnt st) := r]> (test_results st) /\
     test_results st' !! Z.to_nat (testCnt st) = Some r /\
     hw st' = conclude what (testCnt st) r (testFunc w).2) /\
  (forall testFunc' : probe,
     (forall w0 : world,
        success (testFunc' w0).1 = success (testFunc w0).1 /\
        status (testFunc' w0).1 = status (testFunc w0).1 /\
        (testFunc' w0).2 = (testFunc w0).2) ->
     doTest DEVICE_SIZE what testFunc' st
     = doTest DEVICE_SIZE what testFunc st).
Proof.
  intros Hgate Hname Hslot w pr r.
  destruct (awaitRelease_globals st st1 Hgate) as [Hcnt Hres].
  assert (Hslot1 : 0 <= testCnt st1 < Z.of_nat (length (test_results st1)))
    by (rewrite Hcnt, Hres; exact Hslot).
  split.
  - exists (tested what testFunc st1).
    rewrite (doTest_tested DEVICE_SIZE what testFunc st st1 Hgate Hname
               Hslot1).
    unfold tested. cbn [test_results hw]. rewrite Hcnt, Hres.
    fold w. fold pr.
    change (relabel what pr) with r.
    split; [reflexivity |]. split; [reflexivity |].
    split; [| reflexivity].
    apply list_lookup_insert_eq. lia.
  - intros testFunc' Hsame.
    rewrite (doTest_tested DEVICE_SIZE what testFunc st st1 Hgate Hname
               Hslot1).
    rewrite (doTest_tested DEVICE_SIZE what testFunc' st st1 Hgate Hname
               Hslot1).
    unfold tested, relabel.
    destruct (Hsame (announce what (testCnt st1) (hw st1)))
      as (Es & Et & Ew).
    rewrite Es, Et, Ew. reflexivity.
Qed.

Lemma doTest_overwrites_device_witness :
  let blank := {| device := ""; success := false; status := "" |} in
  let idle := {| at_ms := 0; select := false |} in
  let w0 := {| samples := [idle; idle; idle]; display := [];
               serial := [Println "Testing started."] |} in
  let testFunc : probe :=
    fun w => ({| device := "probe";
                 success := bool_decide (length (serial w) = 4%nat);
                 status := "no chip" |}, w) in
  let st := initial_state blank w0 in
  let st1 := initial_state blank
               {| samples := []; display := [];
                  serial := [Println "Testing started."] |} in
  let w := announce "Flash" (testCnt st) (hw st1) in
  let pr := (testFunc w).1 in
  let r := {| device := "Flash"; success := success pr;
              status := status pr |} in
  (exists st' : state,
     doTest 20 "Flash" testFunc st = Done (r, st') /\
     test_results st' = <[Z.to_nat (testCnt st) := r]> (test_results st) /\
     test_results st' !! Z.to_nat (testCnt st) = Some r /\
     hw st' = conclude "Flash" (testCnt st) r (testFunc w).2) /\
  (forall testFunc' : probe,
     (forall w0 : world,
        success (testFunc' w0).1 = success (testFunc w0).1 /\
        status (testFunc' w0).1 = status (testFunc w0).1 /\
        (testFunc' w0).2 = (testFunc w0).2) ->
     doTest 20 "Flash" testFunc' st = doTest 20 "Flash" testFunc st).
Proof.
  intros blank idle w0 testFunc st st1.
  apply (doTest_overwrites_device 20 "Flash" testFunc st st1).
  - reflexivity.
  - cbn. lia.
  - cbn. lia.
Defined.

(** The buffer has room for two results more than [setup] records. *)
Lemma results_capacity_counterexample :
  length (test_results
            (initial_state {| device := ""; success := false; status := "" |}
               {| samples := []; display := []; serial := [] |}))
  <> length test_names.
Proof. cbn. lia. Qed.

(** C6 (amended): the result buffer has 15 slots, two more than the 13
    tests [setup] runs. Every completed [doTest] stores exactly one
    result, in the slot [testCnt] points at, which lies inside the
    buffer, leaves the other slots as they are and advances [testCnt]
    by one; the report changes neither. When [setup] completes, the
    first 13 slots hold the results of the 13 tests in the order they
    ran, and the number of recorded results is within the capacity.
    With names that fit the [device] field, a run of [setup] never
    stores or reads outside the buffer. *)
Theorem results_within_capacity (DEVICE_SIZE : nat) :
  (RESULTS_LEN = 15%nat /\ length test_names = 13%nat) /\
  (forall (blank : TestResult) (w : world),
     recorded [] (initial_state blank w)) /\
  (forall (what : string) (testFunc : probe) (st st' : state)
          (r : TestResult),
     doTest DEVICE_SIZE what testFunc st = Done (r, st') ->
     0 <= testCnt st /\
     (Z.to_nat (testCnt st) < length (test_results st))%nat /\
     testCnt st' = testCnt st + 1 /\
     test_results st' = <[Z.to_nat (testCnt st) := r]> (test_results st) /\
     device r = what) /\
  (forall st st' : state,
     report st = Done (tt, st') ->
     testCnt st' = testCnt st /\ test_results st' = test_results st) /\
  (forall (testScreen testConnector testFlash testBMP180 testMPU6050
           testHMC5883L testRAM testSD testMP3 testMIDI testWiFi
           testBluetooth testSIM : probe)
          (sim_powerOnStart sim_powerOnEnd : world -> world)
          (blank : TestResult) (w : world) (st' : state),
     setup_tests DEVICE_SIZE testScreen testConnector testFlash testBMP180
       testMPU6050 testHMC5883L testRAM testSD testMP3 testMIDI testWiFi
       testBluetooth testSIM sim_powerOnStart sim_powerOnEnd
       (initial_state blank w) = Done (tt, st') ->
     testCnt st' = 13 /\
     length (test_results st') = RESULTS_LEN /\
     (Z.to_nat (testCnt st') <= length (test_results st'))%nat /\
     device <$> take 13 (test_results st') = test_names) /\
  (forall (testScreen testConnector testFlash testBMP180 testMPU6050
           testHMC5883L testRAM testSD testMP3 testMIDI testWiFi
           testBluetooth testSIM : probe)
          (sim_powerOnStart sim_powerOnEnd : world -> world)
          (blank : TestResult) (w : world),
     Forall (fun name => (String.length name < DEVICE_SIZE)%nat)
       test_names ->
     setup_tests DEVICE_SIZE testScreen testConnector testFlash testBMP180
       testMPU6050 testHMC5883L testRAM testSD testMP3 testMIDI testWiFi
       testBluetooth testSIM sim_powerOnStart sim_powerOnEnd
       (initial_state blank w) <> Undefined).
Proof.
  split; [split; reflexivity |].
  split; [intros blank w; split; [| split]; reflexivity |].
  split; [apply doTest_globals |].
  split; [apply report_globals |].
  split.
  2: {
    intros testScreen testConnector testFlash testBMP180 testMPU6050
      testHMC5883L testRAM testSD testMP3 testMIDI testWiFi testBluetooth
      testSIM sim_powerOnStart sim_powerOnEnd blank w Hnames.
    assert (Hrec : recorded [] (initial_state blank w))
      by (split; [| split]; reflexivity).
    unfold test_names in Hnames.
    repeat match goal with
    | Hf : Forall _ (_ :: _) |- _ => inversion_clear Hf
    end.
    unfold setup_tests.
    repeat match goal with
    | |- bind (doTest _ _ _) _ _ <> Undefined =>
        let r := fresh "r" in
        let s := fresh "s" in
        let Hs := fresh "Hs" in
        apply bind_defined;
        [ apply doTest_defined;
          [ assumption
          | destruct Hrec as (Hc & Hl & _); rewrite Hc, Hl;
            unfold RESULTS_LEN; cbn [length]; lia ]
        | intros r s Hs;
          apply (fun Hd => doTest_recorded DEVICE_SIZE _ _ _ _ _ _ Hd Hrec)
            in Hs;
          clear Hrec; rename Hs into Hrec; cbn [app] in Hrec ]
    | |- bind _ _ _ <> Undefined =>
        let r := fresh "u" in
        let s := fresh "s" in
        let Hs := fresh "Hs" in
        apply bind_defined;
        [ unfold to_serial, with_hw; discriminate
        | intros r s Hs;
          apply (fun Hd => with_hw_recorded _ _ _ _ _ Hd Hrec) in Hs;
          clear Hrec; rename Hs into Hrec ]
    end.
    apply (report_defined _ _ Hrec). unfold RESULTS_LEN. cbn [length]. lia. }
  intros testScreen testConnector testFlash testBMP180 testMPU6050
    testHMC5883L testRAM testSD testMP3 testMIDI testWiFi testBluetooth
    testSIM sim_powerOnStart sim_powerOnEnd blank w st' H.
  assert (Hrec : recorded [] (initial_state blank w))
    by (split; [| split]; reflexivity).
  unfold setup_tests in H.
  repeat match type of H with
  | bind (doTest _ _ _) _ _ = Done _ =>
      let r := fresh "r" in
      let s := fresh "s" in
      let Hs := fresh "Hs" in
      apply bind_inv in H as (r & s & Hs & H);
      apply (fun Hd => doTest_recorded DEVICE_SIZE _ _ _ _ _ _ Hd Hrec) in Hs;
      clear Hrec; rename Hs into Hrec; cbn [app] in Hrec
  | bind _ _ _ = Done _ =>
      let r := fresh "u" in
      let s := fresh "s" in
      let Hs := fresh "Hs" in
      apply bind_inv in H as (r & s & Hs & H);
      apply (fun Hd => with_hw_recorded _ _ _ _ _ Hd Hrec) in Hs;
      clear Hrec; rename Hs into Hrec
  end.
  apply report_globals in H as [Hcnt Hres].
  destruct Hrec as (Hc & Hl & Hn).
  rewrite Hcnt, Hres, Hc, Hl. cbn [length] in *.
  split; [reflexivity |]. split; [reflexivity |].
  split; [unfold RESULTS_LEN; lia | exact Hn].
Qed.

(** A run of [setup] on a board whose SELECT button is not touched and
    whose Flash and WiFi probes fail. *)
Example setup_tests_ex :
  let ok : probe :=
    fun w => ({| device := ""; success := true; status := "OK" |}, w) in
  let bad : probe :=
    fun w => ({| device := ""; success := false; status := "No response" |},
              w) in
  let blank := {| device := ""; success := false; status := "" |} in
  let w := {| samples := replicate 39 {| at_ms := 0; select := false |};
              display := []; serial := [] |} in
  exists st' : state,
    setup_tests 20 ok ok bad ok ok ok ok ok ok ok bad ok ok id id
      (initial_state blank w) = Done (tt, st') /\
    testCnt st' = 13 /\
    drop 15 (lines_from "" (serial (hw st')))
    = ["Testing completed with errors.";
       "Please check the following components:";
       "- Flash (No response)"; "- WiFi (No response)"].
Proof.
  cbv zeta. eexists. split; [vm_compute; reflexivity |].
  split; vm_compute; reflexivity.
Qed.

(** ** The checksum as a linear map *)

(** One bit step is linear over exclusive-or. *)
Lemma crc32_bit_lxor (a b : Z) :
  crc32_bit (Z.lxor a b) = Z.lxor (crc32_bit a) (crc32_bit b).
Proof.
  unfold crc32_bit. rewrite Z.lxor_spec, Z.shiftr_lxor.
  destruct (Z.testbit a 0), (Z.testbit b 0); cbn [xorb];
    apply Z.bits_inj'; intros n Hn; rewrite ?Z.lxor_spec;
    destruct (Z.testbit (Z.shiftr a 1) n), (Z.testbit (Z.shiftr b 1) n),
             (Z.testbit POLY n); reflexivity.
Qed.

Lemma iter_crc32_bit_lxor (n : nat) (a b : Z) :
  Nat.iter n crc32_bit (Z.lxor a b)
  = Z.lxor (Nat.iter n crc32_bit a) (Nat.iter n crc32_bit b).
Proof.
  induction n as [| n IH]; [reflexivity |].
  cbn [Nat.iter nat_rect]. fold (Nat.iter n crc32_bit (Z.lxor a b)).
  fold (Nat.iter n crc32_bit a). fold (Nat.iter n crc32_bit b).
  rewrite IH. apply crc32_bit_lxor.
Qed.

Lemma in_range_iter_crc32_bit (n : nat) (c : Z) :
  U32.in_range c -> U32.in_range (Nat.iter n crc32_bit c).
Proof.
  intros H. induction n as [| n IH]; [exact H |].
  apply in_range_crc32_bit. exact IH.
Qed.

(** A bit step sends no 32-bit value but 0 to 0: the polynomial has bit
    31 set and the shifted value has not. *)
Lemma crc32_bit_zero (d : Z) :
  U32.in_range d -> crc32_bit d = 0 -> d = 0.
Proof.
  unfold U32.in_range, U32.modulus, crc32_bit. intros Hd.
  pose proof (Z.bit0_mod d) as Hb.
  assert (Hs : Z.shiftr d 1 = d / 2)
    by (rewrite Z.shiftr_div_pow2 by lia; reflexivity).
  destruct (Z.testbit d 0); cbn [Z.b2z] in Hb; intros H.
  - apply Z.lxor_eq in H. unfold POLY in H. rewrite Hs in H.
    exfalso. revert H. Z.div_mod_to_equations. lia.
  - rewrite Hs in H. revert H Hb. Z.div_mod_to_equations. lia.
Qed.

Lemma crc32_bit_inj (a b : Z) :
  U32.in_range a -> U32.in_range b -> crc32_bit a = crc32_bit b -> a = b.
Proof.
  intros Ha Hb H. apply Z.lxor_eq.
  apply crc32_bit_zero; [apply in_range_lxor; assumption |].
  rewrite crc32_bit_lxor, H. apply Z.lxor_nilpotent.
Qed.

Lemma iter_crc32_bit_inj (n : nat) (a b : Z) :
  U32.in_range a -> U32.in_range b ->
  Nat.iter n crc32_bit a = Nat.iter n crc32_bit b -> a = b.
Proof.
  intros Ha Hb. induction n as [| n IH]; [intros H; exact H |].
  intros H. apply IH. apply crc32_bit_inj; [| | exact H];
    apply in_range_iter_crc32_bit; assumption.
Qed.

(** Shifting out a zero bit only shifts. *)
Lemma crc32_bit_double (m : Z) : crc32_bit (2 * m) = m.
Proof.
  unfold crc32_bit. rewrite Z.testbit_even_0.
  rewrite Z.shiftr_div_pow2 by lia. change (2 ^ 1) with 2.
  rewrite Z.mul_comm. apply Z.div_mul. lia.
Qed.

Lemma iter8_shifted_byte (h : Z) : Nat.iter 8 crc32_bit (256 * h) = h.
Proof.
  cbn [Nat.iter nat_rect].
  replace (256 * h) with (2 * (2 * (2 * (2 * (2 * (2 * (2 * (2 * h))))))))
    by lia.
  rewrite !crc32_bit_double. reflexivity.
Qed.

(** A 16-bit word is its low byte combined with its high byte moved up
    by eight bits. *)
Lemma word_bytes (w : Z) :
  0 <= w < 65536 ->
  w = Z.lxor (Z.land w 255) (256 * Z.land (Z.shiftr w 8) 255).
Proof.
  intros Hw.
  change 255 with (Z.ones 8). rewrite !Z.land_ones by lia.
  rewrite Z.shiftr_div_pow2 by lia. change (2 ^ 8) with 256.
  rewrite (Z.mod_small (w / 256)) by (Z.div_mod_to_equations; lia).
  rewrite <- Z.add_nocarry_lxor.
  - Z.div_mod_to_equations. lia.
  - apply Z.bits_inj'. intros n Hn. rewrite Z.land_spec, Z.bits_0.
    destruct (Z.lt_ge_cases n 8) as [Hlt | Hge].
    + replace (256 * (w / 256)) with (Z.shiftl (w / 256) 8)
        by (rewrite Z.shiftl_mul_pow2 by lia; change (2 ^ 8) with 256; lia).
      rewrite Z.shiftl_spec_low by exact Hlt. apply andb_false_r.
    + change 256 with (2 ^ 8) at 1.
      rewrite Z.mod_pow2_bits_high by lia. reflexivity.
Qed.

(** On a 16-bit word [runCRCWord] is sixteen bit steps on the
    accumulator combined with the word. *)
Lemma runCRCWord_iter16 (w c : Z) :
  0 <= w < 65536 ->
  runCRCWord w c = Nat.iter 16 crc32_bit (Z.lxor c w).
Proof.
  intros Hw. rewrite runCRCWord_bytes. unfold le_bytes.
  cbn [fold_left]. rewrite !crc32_byte_iter.
  set (lo := Z.land w 255). set (hi := Z.land (Z.shiftr w 8) 255).
  assert (E : Z.lxor c w = Z.lxor (Z.lxor c lo) (256 * hi)).
  { rewrite (word_bytes w Hw) at 1. fold lo hi.
    symmetry. apply Z.lxor_assoc. }
  rewrite E.
  change 16%nat with (8 + 8)%nat. rewrite Nat.iter_add.
  rewrite (iter_crc32_bit_lxor 8 (Z.lxor c lo)), iter8_shifted_byte.
  reflexivity.
Qed.

Lemma lxor_cancel_r (a b c : Z) : Z.lxor a c = Z.lxor b c -> a = b.
Proof.
  intros H. apply (f_equal (fun x => Z.lxor x c)) in H.
  rewrite !Z.lxor_assoc, Z.lxor_nilpotent, !Z.lxor_0_r in H. exact H.
Qed.

Lemma lxor_cancel_l (a b c : Z) : Z.lxor c a = Z.lxor c b -> a = b.
Proof. rewrite !(Z.lxor_comm c). apply lxor_cancel_r. Qed.

Lemma in_range_word (w : Z) : 0 <= w < 65536 -> U32.in_range w.
Proof. unfold U32.in_range, U32.modulus. lia. Qed.

(** Two accumulators that differ still differ after the same word,
    whatever the word. *)
Lemma runCRCWord_inj_crc (w c1 c2 : Z) :
  U32.in_range c1 -> U32.in_range c2 ->
  runCRCWord w c1 = runCRCWord w c2 -> c1 = c2.
Proof.
  intros H1 H2. rewrite !runCRCWord_bytes. unfold le_bytes.
  cbn [fold_left]. rewrite !crc32_byte_iter. intros H.
  pose proof (in_range_land_255 w) as Hlo.
  pose proof (in_range_land_255 (Z.shiftr w 8)) as Hhi.
  apply iter_crc32_bit_inj in H.
  - apply lxor_cancel_r in H. apply iter_crc32_bit_inj in H.
    + exact (lxor_cancel_r _ _ _ H).
    + apply in_range_lxor; assumption.
    + apply in_range_lxor; assumption.
  - apply in_range_lxor; [| exact Hhi].
    apply in_range_iter_crc32_bit, in_range_lxor; assumption.
  - apply in_range_lxor; [| exact Hhi].
    apply in_range_iter_crc32_bit, in_range_lxor; assumption.
Qed.

(** X1: on 16-bit words and 32-bit accumulators [runCRCWord] gives the
    same value exactly when the accumulator combined with the word by
    exclusive-or is the same: for one accumulator no two words give
    the same value, and for one word no two accumulators do. *)
Theorem runCRCWord_injective (w1 w2 c1 c2 : Z) :
  0 <= w1 < 65536 -> 0 <= w2 < 65536 ->
  U32.in_range c1 -> U32.in_range c2 ->
  (runCRCWord w1 c1 = runCRCWord w2 c2 <-> Z.lxor c1 w1 = Z.lxor c2 w2) /\
  (runCRCWord w1 c1 = runCRCWord w2 c1 -> w1 = w2) /\
  (runCRCWord w1 c1 = runCRCWord w1 c2 -> c1 = c2).
Proof.
  intros Hw1 Hw2 Hc1 Hc2.
  assert (Hiff : runCRCWord w1 c1 = runCRCWord w2 c2
                 <-> Z.lxor c1 w1 = Z.lxor c2 w2).
  { rewrite !runCRCWord_iter16 by assumption. split.
    - apply iter_crc32_bit_inj;
        apply in_range_lxor; auto using in_range_word.
    - intros ->. reflexivity. }
  split; [exact Hiff |]. split.
  - rewrite !runCRCWord_iter16 by assumption. intros H.
    apply iter_crc32_bit_inj in H;
      [| apply in_range_lxor; auto using in_range_word ..].
    exact (lxor_cancel_l _ _ _ H).
  - apply runCRCWord_inj_crc; assumption.
Qed.

Lemma runCRCWord_injective_witness :
  (runCRCWord 0x0201 0 = runCRCWord 0x0403 0x0602
   <-> Z.lxor 0 0x0201 = Z.lxor 0x0602 0x0403) /\
  (runCRCWord 0x0201 0 = runCRCWord 0x0403 0 -> 0x0201 = 0x0403) /\
  (runCRCWord 0x0201 0 = runCRCWord 0x0201 0x0602 -> 0 = 0x0602).
Proof.
  apply runCRCWord_injective; unfold U32.in_range, U32.modulus; lia.
Defined.

Section Detection.

Variable mem : Z -> Z.

Lemma crc_over_inj_crc (l : list Z) (c1 c2 : Z) :
  U32.in_range c1 -> U32.in_range c2 ->
  crc_over mem l c1 = crc_over mem l c2 -> c1 = c2.
Proof.
  revert c1 c2. induction l as [| a l IH]; intros c1 c2 H1 H2.
  - rewrite !crc_over_nil. intros H. exact H.
  - rewrite !crc_over_cons. intros H.
    apply IH in H; [| apply in_range_runCRCWord; assumption ..].
    exact (runCRCWord_inj_crc _ _ _ H1 H2 H).
Qed.

Lemma not_inj (x y : Z) :
  U32.in_range x -> U32.in_range y -> U32.not x = U32.not y -> x = y.
Proof.
  intros Hx Hy H. rewrite <- (not_not x Hx), <- (not_not y Hy), H.
  reflexivity.
Qed.

(** A change of one word in a list of words read changes the value. *)
Lemma crc_over_detects (mem' : Z -> Z) (l1 l2 : list Z) (a0 c : Z) :
  U32.in_range c ->
  0 <= mem a0 < 65536 -> 0 <= mem' a0 < 65536 ->
  mem' a0 <> mem a0 ->
  (forall a, a ∈ l1 -> mem' a = mem a) ->
  (forall a, a ∈ l2 -> mem' a = mem a) ->
  crc_over mem' (l1 ++ a0 :: l2) c <> crc_over mem (l1 ++ a0 :: l2) c.
Proof.
  intros Hc Hw Hw' Hne H1 H2.
  rewrite !crc_over_app, !crc_over_cons.
  rewrite (crc_over_ext mem mem' l1) by exact H1.
  rewrite (crc_over_ext mem mem' l2) by exact H2.
  set (x := crc_over mem l1 c).
  assert (Hx : U32.in_range x) by (apply in_range_crc_over; exact Hc).
  intros H. apply crc_over_inj_crc in H;
    [| apply in_range_runCRCWord; exact Hx ..].
  apply Hne.
  rewrite !runCRCWord_iter16 in H by assumption.
  apply iter_crc32_bit_inj in H;
    [| apply in_range_lxor; auto using in_range_word ..].
  exact (lxor_cancel_l _ _ _ H).
Qed.

End Detection.

Lemma NoDup_region_words (start_addr end_addr : Z) :
  NoDup (region_words start_addr end_addr).
Proof.
  unfold region_words. apply NoDup_fmap_2; [| apply NoDup_seq].
  intros i j H. lia.
Qed.

(** X2: over the same memory and region, two different 32-bit seeds
    never give the same checksum, for either variant. *)
Theorem calcCRCFlash_seed_injective (mem : Z -> Z)
    (start_addr end_addr c1 c2 : Z) :
  U32.in_range c1 -> U32.in_range c2 ->
  (calcCRCFlash mem start_addr end_addr c1
   = calcCRCFlash mem start_addr end_addr c2 -> c1 = c2) /\
  (calcCRCFlashBurst mem start_addr end_addr c1
   = calcCRCFlashBurst mem start_addr end_addr c2 -> c1 = c2).
Proof.
  intros H1 H2.
  rewrite !calcCRCFlashBurst_passes, !calcCRCFlash_passes.
  assert (H : U32.not
                (crc_over mem
                   (word_addresses start_addr 0
                      (passes (word_count start_addr end_addr)))
                   (U32.not c1))
              = U32.not
                  (crc_over mem
                     (word_addresses start_addr 0
                        (passes (word_count start_addr end_addr)))
                     (U32.not c2)) -> c1 = c2).
  { intros H.
    apply not_inj in H; [| apply in_range_crc_over, in_range_not ..].
    apply crc_over_inj_crc in H; [| apply in_range_not ..].
    exact (not_inj _ _ H1 H2 H). }
  split; exact H.
Qed.

Lemma calcCRCFlash_seed_injective_witness :
  (calcCRCFlash (fun a => a) 0 8 0 = calcCRCFlash (fun a => a) 0 8 7
   -> 0 = 7) /\
  (calcCRCFlashBurst (fun a => a) 0 8 0
   = calcCRCFlashBurst (fun a => a) 0 8 7 -> 0 = 7).
Proof.
  apply calcCRCFlash_seed_injective; unfold U32.in_range, U32.modulus; lia.
Defined.

(** X3: on a region that holds at least one word and does not wrap,
    over memories of 16-bit words, a change of exactly one word of the
    region always changes the checksum. *)
Theorem calcCRCFlash_detects_word (mem mem' : Z -> Z)
    (start_addr end_addr start_crc a0 : Z) :
  U32.in_range start_addr -> U32.in_range end_addr ->
  start_addr + 2 <= end_addr ->
  a0 ∈ region_words start_addr end_addr ->
  0 <= mem a0 < 65536 -> 0 <= mem' a0 < 65536 ->
  mem' a0 <> mem a0 ->
  (forall a, a ∈ region_words start_addr end_addr -> a <> a0 ->
             mem' a = mem a) ->
  calcCRCFlash mem' start_addr end_addr start_crc
  <> calcCRCFlash mem start_addr end_addr start_crc.
Proof.
  intros Hs He Hle Hin Hw Hw' Hne Hsame.
  rewrite !calcCRCFlash_passes, region_words_eq by assumption.
  pose proof (NoDup_region_words start_addr end_addr) as Hnd.
  apply list_elem_of_split in Hin as (l1 & l2 & Hl).
  rewrite Hl in Hnd, Hsame |- *.
  apply list.NoDup_app in Hnd as (_ & Hdisj & Hnd2).
  apply list.NoDup_cons in Hnd2 as [Hnot2 _].
  intros H.
  apply not_inj in H; [| apply in_range_crc_over, in_range_not ..].
  revert H. apply crc_over_detects; try assumption.
  - apply in_range_not.
  - intros a Ha. apply Hsame.
    + apply elem_of_app. left. exact Ha.
    + intros ->. apply (Hdisj a0 Ha). apply list_elem_of_here.
  - intros a Ha. apply Hsame.
    + apply elem_of_app. right. apply list_elem_of_further, Ha.
    + intros ->. exact (Hnot2 Ha).
Qed.

Lemma calcCRCFlash_detects_word_witness :
  calcCRCFlash (fun a => if a =? 4 then 1 else 0) 0 8 0
  <> calcCRCFlash (fun _ => 0) 0 8 0.
Proof.
  apply (calcCRCFlash_detects_word (fun _ => 0)
           (fun a => if a =? 4 then 1 else 0) 0 8 0 4).
  - unfold U32.in_range, U32.modulus. lia.
  - unfold U32.in_range, U32.modulus. lia.
  - lia.
  - vm_compute. apply list_elem_of_further, list_elem_of_further,
      list_elem_of_here.
  - lia.
  - cbn. lia.
  - cbn. lia.
  - intros a _ Ha. destruct (Z.eqb_spec a 4); [contradiction | reflexivity].
Defined.

(** ** Checksums of regions *)

Lemma calcCRCFlash_crc32 (mem : Z -> Z) (start_addr end_addr : Z) :
  U32.in_range start_addr -> U32.in_range end_addr ->
  start_addr + 2 <= end_addr ->
  calcCRCFlash mem start_addr end_addr 0
  = crc32 (concat (le_bytes <$> (mem <$> region_words start_addr end_addr))).
Proof.
  intros Hs He Hle.
  unfold calcCRCFlash. rewrite calcCRCFlash_run_region by assumption.
  cbn [fst]. apply feed_words_crc32.
Qed.



Lemma refills_bounds (n : nat) :
  (n <= buff_len * refills n buff_len < n + 8)%nat.
Proof.
  unfold refills, buff_len.
  pose proof (Nat.div_mod_eq (n + 8 - 1) 8) as E.
  pose proof (Nat.mod_upper_bound (n + 8 - 1) 8 ltac:(lia)) as B.
  lia.
Qed.

(** X5: for every start, end and seed the burst variant reads the
    addresses the sequential variant reads, in the same order, and then
    fewer than 8 further addresses, which complete the last burst: the
    number of its reads is a multiple of 8. *)
Theorem calcCRCFlashBurst_reads (mem : Z -> Z)
    (start_addr end_addr start_crc : Z) :
  exists (extra : list Z) (bursts : nat),
    snd (calcCRCFlashBurst_run mem start_addr end_addr start_crc)
    = snd (calcCRCFlash_run mem start_addr end_addr start_crc) ++ extra /\
    (length extra < 8)%nat /\
    length (snd (calcCRCFlashBurst_run mem start_addr end_addr start_crc))
    = (8 * bursts)%nat.
Proof.
  unfold calcCRCFlashBurst_run.
  rewrite calcCRCFlashBurst_from_passes by apply length_replicate.
  rewrite calcCRCFlash_run_passes. cbv zeta. cbn [snd].
  set (n := passes (word_count start_addr end_addr)).
  pose proof (refills_bounds n) as Hb.
  exists (word_addresses start_addr n (buff_len * refills n buff_len - n)),
    (refills n buff_len).
  split; [| split].
  - rewrite <- (word_addresses_app start_addr 0 n). f_equal. lia.
  - rewrite length_word_addresses. lia.
  - rewrite length_word_addresses. reflexivity.
Qed.

(** Chaining with any seed. *)
Lemma calcCRCFlash_chain (mem : Z -> Z) (a b c seed : Z) :
  U32.in_range a -> U32.in_range b -> U32.in_range c ->
  a + 2 <= b -> (b - a) mod 2 = 0 -> b + 2 <= c ->
  calcCRCFlash mem b c (calcCRCFlash mem a b seed)
  = calcCRCFlash mem a c seed.
Proof.
  intros Ha Hb Hc Hab Heven Hbc.
  rewrite !calcCRCFlash_passes.
  rewrite not_not by (apply in_range_crc_over, in_range_not).
  rewrite !passes_region by (assumption || lia).
  set (n1 := Z.to_nat ((b - a) / 2)).
  set (n2 := Z.to_nat ((c - b) / 2)).
  assert (Hn : Z.to_nat ((c - a) / 2) = (n1 + n2)%nat).
  { subst n1 n2. rewrite <- Z2Nat.inj_add by (apply Z.div_pos; lia).
    f_equal. revert Heven. Z.div_mod_to_equations. lia. }
  assert (Hbaddr : b = addr a n1).
  { rewrite (addr_region a b n1 Ha Hb); subst n1;
      rewrite Z2Nat.id by (apply Z.div_pos; lia);
      revert Heven; Z.div_mod_to_equations; lia. }
  rewrite Hn, word_addresses_app, crc_over_app.
  rewrite Hbaddr at 1. rewrite word_addresses_shift, Nat.add_0_r.
  reflexivity.
Qed.

Lemma firmware_end_is_end (mem : Z -> Z) (e : Z) :
  firmware_end mem = Some e -> is_firmware_end mem e.
Proof.
  destruct (scan_loop_finds mem scan_fuel FLASH_TOP [])
    as (e' & log & Hrun & Hend).
  - vm_compute. lia.
  - reflexivity.
  - lia.
  - intros a Ha. lia.
  - unfold firmware_end, firmware_end_run. rewrite Hrun.
    intros [= <-]. exact Hend.
Qed.

(** X6: when the scan of [startLCDTest] ends above 0x3E100, the
    firmware checksum it computes in two chained passes is the CRC-32
    of the bytes from 0x3E000 to the end found, the service checksum is
    the CRC-32 of the 256 bytes from 0x3E000, and the checksum of the
    test routine is the CRC-32 of the first 20000 bytes of the flash. *)
Theorem startLCDTest_crcs_crc32 (mem : Z -> Z) (e : Z) :
  firmware_end mem = Some e ->
  0x3E100 + 2 <= e ->
  startLCDTest_crcs mem
  = Some (crc32 (concat (le_bytes <$> (mem <$> region_words 0x3E000 e))),
          crc32 (concat (le_bytes <$> (mem <$> region_words 0x3E000 0x3E100))),
          crc32 (concat (le_bytes <$> (mem <$> region_words 0 20000)))).
Proof.
  intros Hend He.
  destruct (firmware_end_is_end mem e Hend) as ((_ & Htop) & Heven & _).
  unfold FLASH_TOP in Htop.
  assert (Hr : forall x, 0 <= x <= 0x40000 -> U32.in_range x)
    by (intros x Hx; unfold U32.in_range, U32.modulus; lia).
  assert (R1 : U32.in_range 0x3E000) by (apply Hr; lia).
  assert (R2 : U32.in_range 0x3E100) by (apply Hr; lia).
  assert (R3 : U32.in_range e) by (apply Hr; lia).
  assert (R4 : U32.in_range 0) by (apply Hr; lia).
  assert (R5 : U32.in_range 20000) by (apply Hr; lia).
  unfold startLCDTest_crcs. rewrite Hend. cbn [mbind option_bind].
  rewrite (calcCRCFlash_chain mem 0x3E000 0x3E100 e 0 R1 R2 R3)
    by (lia || reflexivity).
  unfold testroutine_length.
  rewrite calcCRCFlashBurst_passes, <- calcCRCFlash_passes.
  rewrite (calcCRCFlash_crc32 mem 0x3E000 e R1 R3) by lia.
  rewrite (calcCRCFlash_crc32 mem 0x3E000 0x3E100 R1 R2) by lia.
  rewrite (calcCRCFlash_crc32 mem 0 20000 R4 R5) by lia.
  reflexivity.
Qed.

Lemma startLCDTest_crcs_crc32_witness :
  let mem := fun a => if a <? 0x3E200 then 0x940C else 0xFFFF in
  startLCDTest_crcs mem
  = Some (crc32 (concat (le_bytes <$> (mem <$> region_words 0x3E000 0x3E200))),
          crc32 (concat (le_bytes <$> (mem <$> region_words 0x3E000 0x3E100))),
          crc32 (concat (le_bytes <$> (mem <$> region_words 0 20000)))).
Proof.
  intros mem. apply (startLCDTest_crcs_crc32 mem 0x3E200).
  - vm_compute. reflexivity.
  - lia.
Defined.

(** ** What the scan reads *)

Section ScanReads.

Variable mem : Z -> Z.

Lemma descending_cons (e : Z) (n : nat) :
  (e - 2) :: ((fun k : nat => e - 2 - 2 * (Z.of_nat k + 1)) <$> seq 0 n)
  = (fun k : nat => e - 2 * (Z.of_nat k + 1)) <$> seq 0 (S n).
Proof.
  cbn [seq fmap list_fmap]. rewrite <- fmap_S_seq, <- list_fmap_compose.
  apply (f_equal2 cons); [lia |].
  apply list_fmap_ext. intros i k _. cbn. lia.
Qed.

(** The loop reads downwards, two bytes at a time, starting just below
    the address it is entered with, and makes at most one read per unit
    of fuel. *)
Lemma scan_loop_reads (fuel : nat) :
  forall (e : Z) (log : list Z),
    (1 <= fuel)%nat ->
    e = FIRMWARE_START + 2 * Z.of_nat fuel ->
    e <= FLASH_TOP ->
    exists (e' : Z) (n : nat),
      scan_loop mem fuel e log
      = Some (e', log ++ ((fun k : nat => e - 2 * (Z.of_nat k + 1))
                            <$> seq 0 n)) /\
      (1 <= n <= fuel)%nat.
Proof.
  induction fuel as [| fuel IH]; intros e log Hfuel He Htop; [lia |].
  cbn [scan_loop]. unfold read.
  rewrite sub_2_above by (unfold FIRMWARE_START, FLASH_TOP in *; lia).
  destruct (Z.eqb_spec (mem (e - 2)) ERASED) as [Hw | Hw]; cbn [negb].
  - destruct (Z.eqb_spec (e - 2) FIRMWARE_START) as [Hb | Hb]; cbn [negb].
    + exists (e - 2), 1%nat. split; [| lia].
      reflexivity.
    + destruct (IH (e - 2) (log ++ [e - 2])) as (e' & n & Hrun & Hn);
        [lia | lia | lia |].
      exists e', (S n). split; [| lia].
      rewrite Hrun, <- app_assoc. cbn [app].
      rewrite descending_cons. reflexivity.
  - exists e, 1%nat. split; [| lia].
    reflexivity.
Qed.

End ScanReads.

(** X7: over any memory content the scan of [startLCDTest] reads the
    words at 0x3FFFE, 0x3FFFC, ... downwards without a gap, at least one
    and at most 4096 of them, and never reads outside the range from
    0x3E000 to 0x40000. *)
Theorem firmware_end_reads (mem : Z -> Z) :
  exists (e : Z) (n : nat),
    firmware_end_run mem
    = Some (e, (fun k : nat => 0x40000 - 2 * (Z.of_nat k + 1)) <$> seq 0 n) /\
    (1 <= n <= 4096)%nat /\
    Forall (fun a => 0x3E000 <= a < 0x40000)
      ((fun k : nat => 0x40000 - 2 * (Z.of_nat k + 1)) <$> seq 0 n).
Proof.
  destruct (scan_loop_reads mem scan_fuel FLASH_TOP [])
    as (e & n & Hrun & Hn).
  - vm_compute. lia.
  - reflexivity.
  - lia.
  - assert (Hf : scan_fuel = 4096%nat) by reflexivity.
    rewrite Hf in Hn.
    exists e, n. split; [exact Hrun |]. split; [exact Hn |].
    apply list.Forall_fmap, list.Forall_forall. intros k Hk.
    apply elem_of_seq in Hk. cbn. lia.
Qed.

(** ** A button that stays down *)

(** When every sample reads SELECT pressed, the gate comes to a halt,
    with nothing or with the prompt alone on the display. *)
Lemma gate_pressed_Stalled (tr : list sample) :
  Forall pressed tr ->
  exists ops : list display_op,
    gate tr = Stalled ops /\
    (ops = [] \/ ops = [ShowMessage RELEASE_MESSAGE]).
Proof.
  intros Hall. destruct (gate tr) as [[ops rest] | ops |] eqn:Hg.
  - exfalso.
    destruct (gate_inv _ _ _ Hg)
      as (t0 & ps & loop_end & c & after & Htr & _ & _ & Hcheck).
    rewrite Htr in Hall.
    apply list.Forall_cons in Hall as [_ Hall].
    apply list.Forall_app in Hall as [_ Hall].
    apply list.Forall_app in Hall as [_ Hall].
    apply list.Forall_cons in Hall as [Hc Hall].
    unfold pressed, released in *.
    destruct Hcheck as [(Hrel & _) | (_ & _ & held & r & -> & _ & Hr)].
    + congruence.
    + apply list.Forall_app in Hall as [_ Hall].
      apply list.Forall_cons in Hall as [Hr' _]. congruence.
  - exists ops. split; [reflexivity |].
    destruct (gate_Stalled_inv _ _ Hg) as [-> | [-> _]];
      [left | right]; reflexivity.
  - exfalso. revert Hg. unfold gate.
    destruct tr as [| t0 tr1]; [discriminate |].
    pose proof (wait_pressed_defined (U32.wrap (at_ms t0)) _ tr1 (le_n _))
      as H1.
    destruct (wait_pressed (U32.wrap (at_ms t0)) tr1) as [[| c tr3] | [] |];
      [discriminate | | discriminate | contradiction].
    destruct (select c); [| discriminate].
    pose proof (wait_released_defined tr3) as H2.
    destruct (wait_released tr3) as [tr4 | [] |];
      [discriminate | discriminate | contradiction].
Qed.

(** X8: when SELECT reads pressed at every sample (a button that stays
    down), [doTest] does not return. When the samples run out it is
    still polling in the gate, whatever the name and the probe: the
    counter, the result buffer and the serial log are as they were, so
    no result is recorded and nothing is announced, and the display has
    gained nothing or the release prompt alone, which is not cleared. *)
Theorem doTest_blocked_while_pressed (DEVICE_SIZE : nat) (st : state) :
  Forall pressed (samples (hw st)) ->
  exists (ops : list display_op) (halted : state),
    (ops = [] \/ ops = [ShowMessage RELEASE_MESSAGE]) /\
    awaitRelease st = Stalled halted /\
    (forall (what : string) (testFunc : probe),
       doTest DEVICE_SIZE what testFunc st = Stalled halted) /\
    testCnt halted = testCnt st /\
    test_results halted = test_results st /\
    serial (hw halted) = serial (hw st) /\
    display (hw halted) = display (hw st) ++ ops /\
    samples (hw halted) = [].
Proof.
  intros Hall.
  destruct (gate_pressed_Stalled _ Hall) as (ops & Hg & Hops).
  exists ops, (after_gate ops [] st).
  assert (Hgate : awaitRelease st = Stalled (after_gate ops [] st))
    by (rewrite awaitRelease_gate, Hg; reflexivity).
  split; [exact Hops |]. split; [exact Hgate |].
  split; [| repeat split].
  intros what testFunc. unfold doTest, bind. rewrite Hgate. reflexivity.
Qed.

Lemma doTest_blocked_while_pressed_witness :
  let down := {| at_ms := 0; select := true |} in
  let st := initial_state {| device := ""; success := false; status := "" |}
              {| samples := [down; down; down; down];
                 display := []; serial := [Println "Testing started."] |} in
  exists (ops : list display_op) (halted : state),
    (ops = [] \/ ops = [ShowMessage RELEASE_MESSAGE]) /\
    awaitRelease st = Stalled halted /\
    (forall (what : string) (testFunc : probe),
       doTest 20 what testFunc st = Stalled halted) /\
    testCnt halted = testCnt st /\
    test_results halted = test_results st /\
    serial (hw halted) = serial (hw st) /\
    display (hw halted) = display (hw st) ++ ops /\
    samples (hw halted) = [].
Proof.
  intros down st. apply (doTest_blocked_while_pressed 20 st).
  repeat constructor.
Defined.

(** ** The serial log of a run *)

Lemma awaitRelease_serial (st st1 : state) :
  awaitRelease st = Done (tt, st1) -> serial (hw st1) = serial (hw st).
Proof.
  rewrite awaitRelease_gate.
  destruct (gate (samples (hw st))) as [[ops rest] | |];
    [| discriminate | discriminate].
  intros [= <-]. reflexivity.
Qed.

Lemma doTest_serial_ops (DEVICE_SIZE : nat) (what : string)
    (testFunc : probe) (st st' : state) (r : TestResult) :
  doTest DEVICE_SIZE what testFunc st = Done (r, st') ->
  (forall w : world, serial (testFunc w).2 = serial w) ->
  serial (hw st')
  = serial (hw st)
    ++ [Print (device r); Print " Testing..."; Flush;
        Print (if success r then "  SUCCESS" else "  FAILURE");
        Print " - "; Println (status r); Flush].
Proof.
  intros H Hquiet.
  destruct (doTest_inv DEVICE_SIZE what testFunc st st' r H)
    as (st1 & Hgate & _ & _ & -> & ->).
  apply awaitRelease_serial in Hgate.
  unfold tested, conclude, relabel.
  cbn [hw serial device success status].
  rewrite Hquiet. unfold announce. cbn [serial]. rewrite Hgate.
  rewrite <- app_assoc. reflexivity.
Qed.

Lemma lines_from_test_ops (r : TestResult) :
  let ops := [Print (device r); Print " Testing..."; Flush;
              Print (if success r then "  SUCCESS" else "  FAILURE");
              Print " - "; Println (status r); Flush] in
  lines_from "" ops = [test_line r] /\ unfinished "" ops = "".
Proof.
  cbv zeta. cbn [lines_from unfinished]. split; [| reflexivity].
  unfold test_line. f_equal.
  change ("" +:+ device r) with (device r).
  rewrite !string_app_assoc. reflexivity.
Qed.

(** X9: a completed [doTest] whose probe writes nothing to the serial
    port adds exactly one line to a log that stands at the start of a
    line: the name, [ Testing...], the verdict and the status of the
    result it returns; the log stands at the start of a line again. *)
Theorem doTest_logs_one_line (DEVICE_SIZE : nat) (what : string)
    (testFunc : probe) (st st' : state) (r : TestResult) :
  doTest DEVICE_SIZE what testFunc st = Done (r, st') ->
  (forall w : world, serial (testFunc w).2 = serial w) ->
  unfinished "" (serial (hw st)) = "" ->
  lines_from "" (serial (hw st'))
  = lines_from "" (serial (hw st)) ++ [test_line r] /\
  unfinished "" (serial (hw st')) = "".
Proof.
  intros H Hquiet Hline.
  rewrite (doTest_serial_ops DEVICE_SIZE what testFunc st st' r H Hquiet).
  rewrite lines_from_app, unfinished_app, Hline.
  destruct (lines_from_test_ops r) as [El Eu]. cbv zeta in El, Eu.
  rewrite El, Eu. split; reflexivity.
Qed.

Lemma doTest_logs_one_line_witness :
  let testFunc : probe :=
    fun w => ({| device := "probe"; success := false;
                 status := "no chip" |}, w) in
  let idle := {| at_ms := 0; select := false |} in
  let st := initial_state {| device := ""; success := false; status := "" |}
              {| samples := [idle; idle; idle]; display := [];
                 serial := [Println "Testing started."] |} in
  let st' := tested "Flash" testFunc
               (after_gate [] [] st) in
  lines_from "" (serial (hw st'))
  = lines_from "" (serial (hw st))
    ++ [test_line (relabel "Flash" (testFunc (hw st)).1)] /\
  unfinished "" (serial (hw st')) = "".
Proof.
  intros testFunc idle st st'.
  apply (doTest_logs_one_line 20 "Flash" testFunc st st').
  - vm_compute. reflexivity.
  - intros w. reflexivity.
  - reflexivity.
Defined.

Section RunLog.

Variable DEVICE_SIZE : nat.

(** A chain of [doTest] calls that completes is a run of the tests. *)
Lemma tests_run_inv {A} (tests : list (string * probe)) (k : M A)
    (st : state) (x : A * state) :
  foldr (fun t rest => doTest DEVICE_SIZE t.1 t.2 ;;; rest) k tests st
  = Done x ->
  exists (results : list TestResult) (st1 : state),
    tests_run DEVICE_SIZE tests st results st1 /\ k st1 = Done x.
Proof.
  revert st. induction tests as [| t tests IH]; intros st; cbn [foldr].
  - intros H. exists [], st. split; [reflexivity | exact H].
  - intros H. apply bind_inv in H as (r & next & Hr & H).
    destruct (IH next H) as (results & st1 & Hrun & Hk).
    destruct (doTest_inv DEVICE_SIZE t.1 t.2 st next r Hr)
      as (gated & Hgate & _ & _ & Er & _).
    exists (r :: results), st1. split; [| exact Hk].
    cbn [tests_run]. exists gated, next.
    split; [exact Hgate |]. split; [exact Er |].
    split; [exact Hr | exact Hrun].
Qed.

(** A run of tests fills the next slots of the buffer with the results
    of the calls, in order, and leaves the slots below as they are. *)
Lemma tests_run_results (tests : list (string * probe)) :
  forall (st st' : state) (results : list TestResult) (n : nat),
    tests_run DEVICE_SIZE tests st results st' ->
    testCnt st = Z.of_nat n ->
    testCnt st' = Z.of_nat (n + length tests) /\
    length (test_results st') = length (test_results st) /\
    length results = length tests /\
    take (n + length tests) (test_results st')
    = take n (test_results st) ++ results.
Proof.
  induction tests as [| t tests IH]; intros st st' results n Hrun Hcnt.
  - destruct results as [| r results]; [| contradiction].
    cbn [tests_run] in Hrun. subst st'. cbn [length].
    rewrite Nat.add_0_r, app_nil_r. repeat split. exact Hcnt.
  - destruct results as [| r results]; [contradiction |].
    cbn [tests_run] in Hrun.
    destruct Hrun as (gated & next & _ & _ & Hr & Hrun).
    destruct (doTest_globals DEVICE_SIZE t.1 t.2 st next r Hr)
      as (_ & Hslot & Hcnt' & Hres' & _).
    rewrite Hcnt, Nat2Z.id in Hslot, Hres'.
    destruct (IH next st' results (S n) Hrun ltac:(lia))
      as (Ec & El & Er & Et).
    cbn [length]. rewrite <- Nat.add_succ_comm.
    split; [exact Ec |].
    split; [rewrite El, Hres', length_insert; reflexivity |].
    split; [rewrite Er; reflexivity |].
    rewrite Et, Hres'.
    rewrite (take_S_r _ _ r) by (apply list_lookup_insert_eq; exact Hslot).
    rewrite take_insert_ge by lia.
    rewrite <- app_assoc. reflexivity.
Qed.

End RunLog.

(** X10: when the tests of [setup] complete, they have run as 13 calls
    of [doTest], the twelve before the SIM module is powered and the
    one after it, and the first 13 slots of the buffer hold, in the
    order of the calls, the results these calls returned: what each
    probe returned in the world in which it was called, relabelled with
    the name of its test. The serial log ends with the report on
    exactly these 13 results. *)
Theorem setup_tests_reports_results (DEVICE_SIZE : nat)
    (testScreen testConnector testFlash testBMP180 testMPU6050
     testHMC5883L testRAM testSD testMP3 testMIDI testWiFi
     testBluetooth testSIM : probe)
    (sim_powerOnStart sim_powerOnEnd : world -> world)
    (blank : TestResult) (w : world) (st' : state) :
  setup_tests DEVICE_SIZE testScreen testConnector testFlash testBMP180
    testMPU6050 testHMC5883L testRAM testSD testMP3 testMIDI testWiFi
    testBluetooth testSIM sim_powerOnStart sim_powerOnEnd
    (initial_state blank w) = Done (tt, st') ->
  exists (started powered tested12 tested13 : state)
         (results : list TestResult) (last : TestResult),
    (to_serial [Println "Testing started."] ;;; with_hw sim_powerOnStart)
      (initial_state blank w) = Done (tt, started) /\
    tests_run DEVICE_SIZE
      (zip (take 12 test_names)
         [testScreen; testConnector; testFlash; testBMP180; testMPU6050;
          testHMC5883L; testRAM; testSD; testMP3; testMIDI; testWiFi;
          testBluetooth])
      started results tested12 /\
    with_hw sim_powerOnEnd tested12 = Done (tt, powered) /\
    tests_run DEVICE_SIZE [("SIM908", testSIM)] powered [last] tested13 /\
    length results = 12%nat /\
    testCnt st' = 13 /\
    take 13 (test_results st') = results ++ [last] /\
    exists before : list string,
      lines_from "" (serial (hw st'))
      = before ++ report_lines (results ++ [last]).
Proof.
  intros H. unfold setup_tests in H.
  apply bind_inv in H as (u0 & s0 & Hs0 & H).
  apply bind_inv in H as (u1 & started & Hs1 & H).
  assert (Hstart : (to_serial [Println "Testing started."]
                    ;;; with_hw sim_powerOnStart) (initial_state blank w)
                   = Done (tt, started)).
  { unfold bind at 1. rewrite Hs0. destruct u1. exact Hs1. }
  assert (Hcnt0 : testCnt started = Z.of_nat 0
                  /\ length (test_results started) = RESULTS_LEN).
  { injection Hs0 as _ <-. injection Hs1 as _ <-. split; reflexivity. }
  destruct Hcnt0 as [Hcnt0 Hlen0].
  apply (tests_run_inv DEVICE_SIZE
           (zip (take 12 test_names)
              [testScreen; testConnector; testFlash; testBMP180;
               testMPU6050; testHMC5883L; testRAM; testSD; testMP3;
               testMIDI; testWiFi; testBluetooth])) in H
    as (results & tested12 & Hrun12 & H).
  apply bind_inv in H as (u2 & powered & Hpow & H).
  destruct u2.
  apply (tests_run_inv DEVICE_SIZE [("SIM908", testSIM)]) in H
    as (results13 & tested13 & Hrun13 & H).
  destruct (tests_run_results DEVICE_SIZE _ _ _ _ 0 Hrun12 Hcnt0)
    as (Ec12 & El12 & Er12 & Et12).
  cbn [length zip zip_with take test_names Nat.add] in Ec12, Er12, Et12.
  rewrite take_0 in Et12. cbn [app] in Et12.
  assert (Hpc : testCnt powered = Z.of_nat 12
                /\ test_results powered = test_results tested12).
  { injection Hpow as <-. split; [exact Ec12 | reflexivity]. }
  destruct Hpc as [Hpc Hpr].
  destruct (tests_run_results DEVICE_SIZE _ _ _ _ 12 Hrun13 Hpc)
    as (Ec13 & El13 & Er13 & Et13).
  cbn [length Nat.add] in Ec13, Er13, Et13.
  destruct results13 as [| last [| ? ?]]; [discriminate Er13 | |
    discriminate Er13].
  rewrite Hpr, Et12 in Et13.
  apply bind_inv in H as (u3 & s_nl & Hnl & H).
  injection Hnl as _ <-.
  match type of H with report ?s = _ => set (s_prev := s) in * end.
  assert (Hprev : testCnt s_prev = 13
                  /\ test_results s_prev = test_results tested13)
    by (split; [exact Ec13 | reflexivity]).
  destruct Hprev as [Hc Hr].
  rewrite (report_logged (results ++ [last])
             (drop 13 (test_results tested13))) in H.
  - injection H as <-.
    exists started, powered, tested12, tested13, results, last.
    split; [exact Hstart |]. split; [exact Hrun12 |].
    split; [exact Hpow |]. split; [exact Hrun13 |].
    split; [exact Er12 |].
    split; [exact Hc |].
    split; [cbn [logged test_results]; exact Et13 |].
    cbn [logged hw serial].
    eexists.
    rewrite (lines_from_app (serial (hw tested13) ++ [Println ""])).
    rewrite (unfinished_app (serial (hw tested13))).
    cbn [unfinished].
    rewrite (proj1 (lines_from_report_ops _)). reflexivity.
  - rewrite Hc, length_app, Er12. reflexivity.
  - rewrite Hr, <- Et13. symmetry. apply take_drop.
Qed.

Lemma setup_tests_reports_results_witness :
  let ok : probe :=
    fun w => ({| device := "?"; success := true; status := "fine" |}, w) in
  let bad : probe :=
    fun w => ({| device := "?"; success := false; status := "no chip" |}, w) in
  let blank := {| device := ""; success := false; status := "" |} in
  let w := {| samples := repeat {| at_ms := 0; select := false |} 39;
              display := []; serial := [] |} in
  let st' :=
    match setup_tests 20 ok ok bad ok ok ok ok ok ok ok ok ok ok id id
            (initial_state blank w) with
    | Done (_, s) => s
    | _ => initial_state blank w
    end in
  exists (started powered tested12 tested13 : state)
         (results : list TestResult) (last : TestResult),
    (to_serial [Println "Testing started."] ;;; with_hw id)
      (initial_state blank w) = Done (tt, started) /\
    tests_run 20
      (zip (take 12 test_names)
         [ok; ok; bad; ok; ok; ok; ok; ok; ok; ok; ok; ok])
      started results tested12 /\
    with_hw id tested12 = Done (tt, powered) /\
    tests_run 20 [("SIM908", ok)] powered [last] tested13 /\
    length results = 12%nat /\
    testCnt st' = 13 /\
    take 13 (test_results st') = results ++ [last] /\
    exists before : list string,
      lines_from "" (serial (hw st'))
      = before ++ report_lines (results ++ [last]).
Proof.
  intros ok bad blank w st'.
  apply (setup_tests_reports_results 20 ok ok bad ok ok ok ok ok ok ok ok
           ok ok id id blank w st').
  vm_compute. reflexivity.
Defined.

(** ** [printHex] *)

Lemma length_string_app (a b : string) :
  String.length (a +:+ b) = (String.length a + String.length b)%nat.
Proof.
  induction a as [| x a IH]; [reflexivity |].
  change (S (String.length (a +:+ b))
          = S (String.length a + String.length b)).
  f_equal. exact IH.
Qed.

(** X11: with a [Serial.print(val, HEX)] that writes one digit below 16
    and two digits from 16 to 255, [printHex] of a byte extends the
    current line by [0x], exactly two characters (the digits, with a
    [0] in front of a single one) and [, ]: six characters in all. It
    completes no line and touches neither the display nor the inputs. *)
Theorem printHex_fixed_width (print_HEX : Z -> string) (val : Z)
    (st st' : state) :
  0 <= val < 256 ->
  (forall v : Z, 0 <= v < 16 -> String.length (print_HEX v) = 1%nat) ->
  (forall v : Z, 16 <= v < 256 -> String.length (print_HEX v) = 2%nat) ->
  printHex print_HEX val st = Done (tt, st') ->
  exists digits : string,
    String.length digits = 2%nat /\
    digits = (if val <? 16 then "0" else "") +:+ print_HEX val /\
    (forall cur : string,
       unfinished cur (serial (hw st'))
       = unfinished cur (serial (hw st)) +:+ "0x" +:+ digits +:+ ", " /\
       lines_from cur (serial (hw st')) = lines_from cur (serial (hw st))) /\
    display (hw st') = display (hw st) /\
    samples (hw st') = samples (hw st) /\
    testCnt st' = testCnt st /\ test_results st' = test_results st.
Proof.
  intros Hval H1 H2 H.
  exists ((if val <? 16 then "0" else "") +:+ print_HEX val).
  assert (E : serial (hw st')
              = serial (hw st)
                ++ [Print "0x"; Print (if val <? 16 then "0" else "");
                    Print (print_HEX val); Print ", "; Flush]
              /\ display (hw st') = display (hw st)
              /\ samples (hw st') = samples (hw st)
              /\ testCnt st' = testCnt st
              /\ test_results st' = test_results st \/
              serial (hw st')
              = serial (hw st)
                ++ [Print "0x"; Print (print_HEX val); Print ", "; Flush]
              /\ (val <? 16) = false
              /\ display (hw st') = display (hw st)
              /\ samples (hw st') = samples (hw st)
              /\ testCnt st' = testCnt st
              /\ test_results st' = test_results st).
  { unfold printHex, bind, to_serial, with_hw, ret in H.
    destruct (val <? 16) eqn:E16; injection H as <-; cbn;
      rewrite <- ?app_assoc; cbn [app]; [left | right]; repeat split. }
  split.
  { rewrite length_string_app.
    destruct (Z.ltb_spec val 16) as [Hlt | Hge].
    - rewrite (H1 val) by lia. reflexivity.
    - rewrite (H2 val) by lia. reflexivity. }
  split; [reflexivity |].
  destruct E as [(-> & Hd & Hs & Hc & Hr) | (-> & E16 & Hd & Hs & Hc & Hr)].
  - split; [| repeat split; assumption].
    intros cur. rewrite unfinished_app, lines_from_app.
    cbn [unfinished lines_from]. rewrite app_nil_r.
    split; [| reflexivity].
    rewrite !string_app_assoc. reflexivity.
  - split; [| repeat split; assumption].
    intros cur. rewrite unfinished_app, lines_from_app.
    cbn [unfinished lines_from]. rewrite app_nil_r.
    split; [| reflexivity].
    rewrite E16. rewrite !string_app_assoc. reflexivity.
Qed.

Lemma printHex_fixed_width_witness :
  let digit (d : Z) : string :=
    String (nth (Z.to_nat d)
              ["0"; "1"; "2"; "3"; "4"; "5"; "6"; "7"; "8"; "9"; "A"; "B";
               "C"; "D"; "E"; "F"]%char "?"%char) "" in
  let print_HEX (v : Z) : string :=
    (if v <? 16 then "" else digit (v / 16)) +:+ digit (v mod 16) in
  let st := initial_state {| device := ""; success := false; status := "" |}
              {| samples := []; display := [];
                 serial := [Println "Ready"; Print "data: "] |} in
  let st' := logged [Print "0x"; Print "0"; Print "A"; Print ", "; Flush] st in
  exists digits : string,
    String.length digits = 2%nat /\
    digits = (if 10 <? 16 then "0" else "") +:+ print_HEX 10 /\
    (forall cur : string,
       unfinished cur (serial (hw st'))
       = unfinished cur (serial (hw st)) +:+ "0x" +:+ digits +:+ ", " /\
       lines_from cur (serial (hw st')) = lines_from cur (serial (hw st))) /\
    display (hw st') = display (hw st) /\
    samples (hw st') = samples (hw st) /\
    testCnt st' = testCnt st /\ test_results st' = test_results st.
Proof.
  intros digit print_HEX st st'.
  apply (printHex_fixed_width print_HEX 10 st st').
  - lia.
  - intros v Hv. unfold print_HEX.
    destruct (Z.ltb_spec v 16); [reflexivity | lia].
  - intros v Hv. unfold print_HEX.
    destruct (Z.ltb_spec v 16); [lia | reflexivity].
  - vm_compute. reflexivity.
Defined.

(** ** The wait for SELECT in [startLCDTest] *)

Lemma await_select_Done (tr : list sample) (frames n : nat)
    (rest : list sample) :
  await_select frames tr = Done (n, rest) <->
  exists (idle : list sample) (s : sample),
    tr = idle ++ s :: rest /\ Forall released idle /\ pressed s /\
    n = (frames + length idle)%nat.
Proof.
  revert frames. induction tr as [| s tr IH]; intros frames;
    cbn [await_select].
  - split; [discriminate |].
    intros (idle & s & E & _). destruct idle; discriminate.
  - destruct (select s) eqn:Es; cbn [negb].
    + split.
      * intros [= <- <-]. exists [], s.
        cbn [app length]. rewrite Nat.add_0_r. repeat split.
        -- constructor.
        -- exact Es.
      * intros (idle & s' & E & Hidle & Hs' & ->).
        destruct idle as [| i idle].
        -- cbn [app] in E. injection E as <- <-.
           cbn [length]. rewrite Nat.add_0_r. reflexivity.
        -- cbn [app] in E. injection E as <- _.
           apply list.Forall_cons in Hidle as [Hi _].
           unfold released in Hi. congruence.
    + rewrite IH. split.
      * intros (idle & s' & -> & Hidle & Hs' & ->).
        exists (s :: idle), s'. cbn [app length].
        repeat split; [| exact Hs' | lia].
        constructor; [exact Es | exact Hidle].
      * intros (idle & s' & E & Hidle & Hs' & ->).
        destruct idle as [| i idle].
        -- cbn [app] in E. injection E as <- _.
           unfold pressed in Hs'. congruence.
        -- cbn [app] in E. injection E as <- ->.
           apply list.Forall_cons in Hidle as [_ Hidle].
           exists idle, s'. cbn [length].
           repeat split; [exact Hidle | exact Hs' | lia].
Qed.

Lemma await_select_Blocked (tr : list sample) (frames : nat) :
  await_select frames tr = Blocked <-> Forall released tr.
Proof.
  revert frames. induction tr as [| s tr IH]; intros frames;
    cbn [await_select].
  - split; [constructor | reflexivity].
  - destruct (select s) eqn:Es; cbn [negb].
    + split; [discriminate |].
      intros H. apply list.Forall_cons in H as [Hs _].
      unfold released in Hs. congruence.
    + rewrite IH. split.
      * intros H. constructor; [exact Es | exact H].
      * intros H. apply list.Forall_cons in H as [_ H]. exact H.
Qed.

(** X12: the wait for SELECT in [startLCDTest] ends at the first poll
    that finds the button pressed, having drawn the test pattern once
    for every poll before it, all of which found the button released;
    it leaves the samples after that poll. It never ends while every
    poll finds the button released, and is defined on every input. *)
Theorem await_select_first_press (tr : list sample) :
  (forall (n : nat) (rest : list sample),
     await_select 0 tr = Done (n, rest) <->
     exists (idle : list sample) (s : sample),
       tr = idle ++ s :: rest /\ Forall released idle /\ pressed s /\
       n = length idle) /\
  (await_select 0 tr = Blocked <-> Forall released tr) /\
  await_select 0 tr <> Undefined.
Proof.
  split; [| split].
  - intros n rest. rewrite await_select_Done. reflexivity.
  - apply await_select_Blocked.
  - generalize 0%nat. induction tr as [| s tr IH]; intros frames;
      cbn [await_select]; [discriminate |].
    destruct (select s); cbn [negb]; [discriminate | apply IH].
Qed.

(** ** The reset of the stored settings *)

Section Settings.

Import Station.

Lemma bits_above (x n m : Z) :
  0 <= x < 2 ^ n -> n <= m -> Z.testbit x m = false.
Proof.
  intros Hx Hm.
  destruct (Z.eq_dec x 0) as [-> | Hne]; [apply Z.bits_0 |].
  apply Z.bits_above_log2; [lia |].
  assert (Z.log2 x < n) by (apply Z.log2_lt_pow2; lia). lia.
Qed.

Lemma below_pow2 (x n : Z) :
  0 <= n -> 0 <= x ->
  (forall m : Z, n <= m -> Z.testbit x m = false) -> x < 2 ^ n.
Proof.
  intros Hn Hx H.
  assert (E : x = x mod 2 ^ n).
  { apply Z.bits_inj'. intros m Hm.
    destruct (Z_lt_le_dec m n) as [Hlt | Hge].
    - rewrite Z.mod_pow2_bits_low by lia. reflexivity.
    - rewrite Z.mod_pow2_bits_high by lia. apply H. exact Hge. }
  rewrite E. apply Z.mod_pos_bound. apply Z.pow_pos_nonneg; lia.
Qed.

Variables SETTINGS_TOUCH_HOR_INV SETTINGS_TOUCH_VER_INV
          SETTINGS_DEFAULT_FLAGS : Z.
Variables SETTINGS_DEFAULT_TOUCH_HOR_A SETTINGS_DEFAULT_TOUCH_HOR_B
          SETTINGS_DEFAULT_TOUCH_VER_A SETTINGS_DEFAULT_TOUCH_VER_B : Z.
Variable defaultSketch : list Z.

Lemma memcpy8_Some (dst src out : list Z) :
  memcpy8 dst src = Some out ->
  (8 <= length src)%nat /\ (8 <= length dst)%nat /\
  out = take 8 src ++ drop 8 dst.
Proof.
  unfold memcpy8.
  destruct (8 <=? length src)%nat eqn:Es; [| discriminate].
  destruct (8 <=? length dst)%nat eqn:Ed; [| discriminate].
  cbn [andb]. intros [= <-].
  apply Nat.leb_le in Es, Ed. repeat split; assumption.
Qed.

Lemma reset_settings_Some (s s' : PHN_Settings) :
  reset_settings SETTINGS_TOUCH_HOR_INV SETTINGS_TOUCH_VER_INV
    SETTINGS_DEFAULT_FLAGS SETTINGS_DEFAULT_TOUCH_HOR_A
    SETTINGS_DEFAULT_TOUCH_HOR_B SETTINGS_DEFAULT_TOUCH_VER_A
    SETTINGS_DEFAULT_TOUCH_VER_B defaultSketch s = Some s' ->
  (8 <= length defaultSketch)%nat /\
  (8 <= length (sketch_toload s))%nat /\
  s' = {| flags :=
            Z.lor (Z.land (flags s)
                     (Z.lnot (Z.lor SETTINGS_TOUCH_HOR_INV
                                SETTINGS_TOUCH_VER_INV)))
              SETTINGS_DEFAULT_FLAGS;
          touch_hor_a := SETTINGS_DEFAULT_TOUCH_HOR_A;
          touch_hor_b := SETTINGS_DEFAULT_TOUCH_HOR_B;
          touch_ver_a := SETTINGS_DEFAULT_TOUCH_VER_A;
          touch_ver_b := SETTINGS_DEFAULT_TOUCH_VER_B;
          sketch_toload := take 8 defaultSketch ++ drop 8 (sketch_toload s) |}.
Proof.
  unfold reset_settings.
  destruct (memcpy8 (sketch_toload s) defaultSketch) as [out |] eqn:E;
    [| discriminate].
  apply memcpy8_Some in E as (Hsrc & Hdst & ->).
  cbn. intros [= <-]. repeat split; assumption.
Qed.

End Settings.

(** X13: the reset of the stored settings is idempotent: when the test
    station answers on two boots in a row, the second reset stores the
    settings the first one stored. *)
Theorem reset_settings_idempotent
    (HOR_INV VER_INV DEFAULT_FLAGS HOR_A HOR_B VER_A VER_B : Z)
    (defaultSketch : list Z) (s s' : Station.PHN_Settings) :
  Station.reset_settings HOR_INV VER_INV DEFAULT_FLAGS HOR_A HOR_B VER_A
    VER_B defaultSketch s = Some s' ->
  Station.reset_settings HOR_INV VER_INV DEFAULT_FLAGS HOR_A HOR_B VER_A
    VER_B defaultSketch s' = Some s'.
Proof.
  intros H.
  apply reset_settings_Some in H as (Hsrc & Hdst & ->).
  unfold Station.reset_settings, Station.memcpy8.
  cbn [Station.flags Station.sketch_toload].
  assert (L : length (take 8 defaultSketch
                      ++ drop 8 (Station.sketch_toload s))
              = length (Station.sketch_toload s)).
  { rewrite length_app, length_take, length_drop. lia. }
  rewrite L.
  destruct (Nat.leb_spec 8 (length defaultSketch)) as [_ | ?]; [| lia].
  destruct (Nat.leb_spec 8 (length (Station.sketch_toload s))) as [_ | ?];
    [| lia].
  cbn. f_equal. f_equal.
  - apply Z.bits_inj'. intros n Hn.
    rewrite !Z.lor_spec, !Z.land_spec, !Z.lor_spec, !Z.land_spec.
    destruct (Z.testbit (Station.flags s) n),
             (Z.testbit (Z.lnot (Z.lor HOR_INV VER_INV)) n),
             (Z.testbit DEFAULT_FLAGS n); reflexivity.
  - f_equal. rewrite drop_app_length'; [reflexivity |].
    rewrite length_take. lia.
Qed.

Lemma reset_settings_idempotent_witness :
  let sketch := [83; 75; 69; 84; 67; 72; 69; 83; 0] in
  let s' := {| Station.flags := 0x48; Station.touch_hor_a := 100;
               Station.touch_hor_b := 900; Station.touch_ver_a := 120;
               Station.touch_ver_b := 880;
               Station.sketch_toload := [83; 75; 69; 84; 67; 72; 69; 83] |} in
  Station.reset_settings 0x01 0x02 0x08 100 900 120 880 sketch s' = Some s'.
Proof.
  intros sketch s'.
  apply (reset_settings_idempotent 0x01 0x02 0x08 100 900 120 880 sketch
           {| Station.flags := 0x43; Station.touch_hor_a := 1;
              Station.touch_hor_b := 2; Station.touch_ver_a := 3;
              Station.touch_ver_b := 4;
              Station.sketch_toload := [77; 65; 73; 78; 0; 0; 0; 0] |} s').
  vm_compute. reflexivity.
Defined.

(** X14: what the reset of the stored settings changes. A flag of the
    result is set when it is a default flag, or when it was set before
    and is neither of the two touch inversion flags; flags that fit a
    width, with default flags that fit it, give flags that fit it, so
    the assignment to the field loses nothing. The four calibration
    values are the defaults. The name of the sketch to load keeps its
    length and its bytes from the ninth on, and starts with the first
    eight bytes of the default name. The reset is undefined only when
    one of the two arrays is shorter than the eight bytes copied. *)
Theorem reset_settings_effect
    (HOR_INV VER_INV DEFAULT_FLAGS HOR_A HOR_B VER_A VER_B : Z)
    (defaultSketch : list Z) (width : Z) (s : Station.PHN_Settings) :
  0 <= width ->
  0 <= Station.flags s < 2 ^ width ->
  0 <= DEFAULT_FLAGS < 2 ^ width ->
  (8 <= length defaultSketch)%nat ->
  (8 <= length (Station.sketch_toload s))%nat ->
  exists s' : Station.PHN_Settings,
    Station.reset_settings HOR_INV VER_INV DEFAULT_FLAGS HOR_A HOR_B VER_A
      VER_B defaultSketch s = Some s' /\
    (forall n : Z, 0 <= n ->
       Z.testbit (Station.flags s') n
       = Z.testbit DEFAULT_FLAGS n
         || (Z.testbit (Station.flags s) n
             && negb (Z.testbit HOR_INV n || Z.testbit VER_INV n))) /\
    0 <= Station.flags s' < 2 ^ width /\
    Station.touch_hor_a s' = HOR_A /\ Station.touch_hor_b s' = HOR_B /\
    Station.touch_ver_a s' = VER_A /\ Station.touch_ver_b s' = VER_B /\
    length (Station.sketch_toload s') = length (Station.sketch_toload s) /\
    take 8 (Station.sketch_toload s') = take 8 defaultSketch /\
    drop 8 (Station.sketch_toload s') = drop 8 (Station.sketch_toload s).
Proof.
  intros Hw Hf Hd Hsrc Hdst.
  assert (Hbits : forall n : Z, 0 <= n ->
            Z.testbit
              (Z.lor (Z.land (Station.flags s)
                        (Z.lnot (Z.lor HOR_INV VER_INV))) DEFAULT_FLAGS) n
            = Z.testbit DEFAULT_FLAGS n
              || (Z.testbit (Station.flags s) n
                  && negb (Z.testbit HOR_INV n || Z.testbit VER_INV n))).
  { intros n Hn.
    rewrite Z.lor_spec, Z.land_spec, Z.lnot_spec, Z.lor_spec by exact Hn.
    destruct (Z.testbit DEFAULT_FLAGS n), (Z.testbit (Station.flags s) n),
             (Z.testbit HOR_INV n), (Z.testbit VER_INV n); reflexivity. }
  eexists. split.
  { unfold Station.reset_settings, Station.memcpy8.
    destruct (Nat.leb_spec 8 (length defaultSketch)) as [_ | ?]; [| lia].
    destruct (Nat.leb_spec 8 (length (Station.sketch_toload s)))
      as [_ | ?]; [| lia].
    cbn. reflexivity. }
  cbn [Station.flags Station.touch_hor_a Station.touch_hor_b
       Station.touch_ver_a Station.touch_ver_b Station.sketch_toload].
  split; [exact Hbits |].
  split.
  { split.
    - apply Z.lor_nonneg. split; [| lia].
      apply Z.land_nonneg. left. lia.
    - apply below_pow2; [exact Hw | |].
      + apply Z.lor_nonneg. split; [| lia].
        apply Z.land_nonneg. left. lia.
      + intros m Hm. rewrite Hbits by lia.
        rewrite (bits_above DEFAULT_FLAGS width m Hd Hm).
        rewrite (bits_above (Station.flags s) width m Hf Hm).
        reflexivity. }
  repeat split.
  - rewrite length_app, length_take, length_drop. lia.
  - rewrite take_app_length'; [reflexivity |].
    rewrite length_take. lia.
  - rewrite drop_app_length'; [reflexivity |].
    rewrite length_take. lia.
Qed.

Lemma reset_settings_effect_witness :
  let s := {| Station.flags := 0x43; Station.touch_hor_a := 1;
              Station.touch_hor_b := 2; Station.touch_ver_a := 3;
              Station.touch_ver_b := 4;
              Station.sketch_toload := [77; 65; 73; 78; 0; 0; 0; 0; 9] |} in
  let sketch := [83; 75; 69; 84; 67; 72; 69; 83; 0] in
  exists s' : Station.PHN_Settings,
    Station.reset_settings 0x01 0x02 0x08 100 900 120 880 sketch s
    = Some s' /\
    (forall n : Z, 0 <= n ->
       Z.testbit (Station.flags s') n
       = Z.testbit 0x08 n
         || (Z.testbit (Station.flags s) n
             && negb (Z.testbit 0x01 n || Z.testbit 0x02 n))) /\
    0 <= Station.flags s' < 2 ^ 8 /\
    Station.touch_hor_a s' = 100 /\ Station.touch_hor_b s' = 900 /\
    Station.touch_ver_a s' = 120 /\ Station.touch_ver_b s' = 880 /\
    length (Station.sketch_toload s') = length (Station.sketch_toload s) /\
    take 8 (Station.sketch_toload s') = take 8 sketch /\
    drop 8 (Station.sketch_toload s') = drop 8 (Station.sketch_toload s).
Proof.
  intros s sketch.
  apply (reset_settings_effect 0x01 0x02 0x08 100 900 120 880 sketch 8 s).
  - lia.
  - cbn. lia.
  - lia.
  - cbn. lia.
  - cbn. lia.
Defined.

(** ** The transcript of a run *)

Section Transcript.

Variable DEVICE_SIZE : nat.
Variable before : list string.

Lemma with_hw_logged_tests (f : world -> world) (n : nat)
    (st st1 : state) (a : unit) :
  with_hw f st = Done (a, st1) ->
  (forall w : world, serial (f w) = serial w) ->
  logged_tests before n st -> logged_tests before n st1.
Proof.
  intros [= <- <-] Hf (Hcnt & Hlen & Hlines & Hline).
  unfold logged_tests. cbn [testCnt test_results hw]. rewrite Hf.
  repeat split; assumption.
Qed.

Lemma doTest_logged_tests (what : string) (testFunc : probe) (n : nat)
    (st st' : state) (r : TestResult) :
  doTest DEVICE_SIZE what testFunc st = Done (r, st') ->
  (forall w : world, serial (testFunc w).2 = serial w) ->
  logged_tests before n st -> logged_tests before (S n) st'.
Proof.
  intros H Hquiet (Hcnt & Hlen & Hlines & Hline).
  destruct (doTest_globals DEVICE_SIZE what testFunc st st' r H)
    as (_ & Hslot & Hcnt' & Hres' & _).
  pose proof (doTest_serial_ops DEVICE_SIZE what testFunc st st' r H Hquiet)
    as Hops.
  destruct (lines_from_test_ops r) as [El Eu]. cbv zeta in El, Eu.
  rewrite Hcnt, Nat2Z.id in Hslot, Hres'.
  unfold logged_tests.
  rewrite Hcnt', Hres', Hcnt, length_insert, Hops, lines_from_app,
    unfinished_app, Hline, El, Eu, Hlines.
  split; [lia |]. split; [exact Hlen |]. split; [| reflexivity].
  rewrite (take_S_r _ _ r) by (apply list_lookup_insert_eq; exact Hslot).
  rewrite take_insert_ge by lia.
  rewrite fmap_app, <- app_assoc. reflexivity.
Qed.

End Transcript.

(** X15: the serial transcript of a run of the tests of [setup] whose
    probes and SIM power calls write nothing to the serial port, on a
    log that stands at the start of a line: after the lines already
    there come [Testing started.], one line for each of the 13 results
    in the order of the tests, an empty line and the report on these
    results, and nothing else. *)
Theorem setup_tests_transcript (DEVICE_SIZE : nat)
    (testScreen testConnector testFlash testBMP180 testMPU6050
     testHMC5883L testRAM testSD testMP3 testMIDI testWiFi
     testBluetooth testSIM : probe)
    (sim_powerOnStart sim_powerOnEnd : world -> world)
    (blank : TestResult) (w : world) (st' : state) :
  unfinished "" (serial w) = "" ->
  Forall (fun p : probe => forall w0 : world, serial (p w0).2 = serial w0)
    [testScreen; testConnector; testFlash; testBMP180; testMPU6050;
     testHMC5883L; testRAM; testSD; testMP3; testMIDI; testWiFi;
     testBluetooth; testSIM] ->
  (forall w0 : world, serial (sim_powerOnStart w0) = serial w0) ->
  (forall w0 : world, serial (sim_powerOnEnd w0) = serial w0) ->
  setup_tests DEVICE_SIZE testScreen testConnector testFlash testBMP180
    testMPU6050 testHMC5883L testRAM testSD testMP3 testMIDI testWiFi
    testBluetooth testSIM sim_powerOnStart sim_powerOnEnd
    (initial_state blank w) = Done (tt, st') ->
  lines_from "" (serial (hw st'))
  = lines_from "" (serial w)
    ++ ["Testing started."]
    ++ (test_line <$> take 13 (test_results st'))
    ++ [""]
    ++ report_lines (take 13 (test_results st')) /\
  unfinished "" (serial (hw st')) = "".
Proof.
  intros Hline Hprobes Hstart Hend H.
  repeat match type of Hprobes with
  | Forall _ (_ :: _) =>
      let Hp := fresh "Hp" in
      apply list.Forall_cons in Hprobes as [Hp Hprobes]
  end.
  clear Hprobes.
  unfold setup_tests in H.
  apply bind_inv in H as (u0 & s0 & Hs0 & H).
  assert (Hinv : logged_tests (lines_from "" (serial w)) 0 s0).
  { injection Hs0 as _ <-. unfold logged_tests.
    cbn [testCnt test_results hw serial initial_state].
    rewrite lines_from_app, unfinished_app, Hline.
    cbn [lines_from unfinished take fmap list_fmap].
    repeat split. }
  clear Hs0.
  do 15 match type of H with
  | bind (doTest _ _ ?p) _ _ = Done _ =>
      let r := fresh "r" in
      let s := fresh "s" in
      let Hs := fresh "Hs" in
      let Hn := fresh "Hn" in
      apply bind_inv in H as (r & s & Hs & H);
      pose proof (doTest_logged_tests DEVICE_SIZE _ _ p _ _ _ _ Hs
                    ltac:(assumption) Hinv) as Hn;
      clear Hinv Hs; rename Hn into Hinv
  | bind (with_hw ?f) _ _ = Done _ =>
      let r := fresh "u" in
      let s := fresh "s" in
      let Hs := fresh "Hs" in
      let Hn := fresh "Hn" in
      apply bind_inv in H as (r & s & Hs & H);
      pose proof (with_hw_logged_tests _ f _ _ _ _ Hs
                    ltac:(assumption) Hinv) as Hn;
      clear Hinv Hs; rename Hn into Hinv
  end.
  apply bind_inv in H as (u_nl & s_last & Hnl & H).
  injection Hnl as _ <-.
  match type of Hinv with logged_tests _ _ ?s => set (s_prev := s) in * end.
  destruct Hinv as (Hcnt & Hlen & Hlines & Hu).
  rewrite (report_logged (take 13 (test_results s_prev))
             (drop 13 (test_results s_prev))) in H.
  - injection H as <-.
    cbn [logged hw serial test_results].
    rewrite (lines_from_app (serial (hw s_prev) ++ [Println ""])).
    rewrite (unfinished_app (serial (hw s_prev) ++ [Println ""])).
    rewrite (lines_from_app (serial (hw s_prev))).
    rewrite (unfinished_app (serial (hw s_prev))).
    rewrite Hu, Hlines. cbn [lines_from unfinished].
    destruct (lines_from_report_ops (take 13 (test_results s_prev)))
      as [El Eu].
    cbv zeta in El, Eu. rewrite El, Eu.
    split; [| reflexivity].
    rewrite <- !app_assoc. reflexivity.
  - cbn [testCnt]. rewrite Hcnt, length_take. f_equal.
    cbn [test_results]. rewrite Hlen. reflexivity.
  - cbn [test_results]. symmetry. apply take_drop.
Qed.

Lemma setup_tests_transcript_witness :
  let ok : probe :=
    fun w => ({| device := "?"; success := true; status := "fine" |}, w) in
  let bad : probe :=
    fun w => ({| device := "?"; success := false; status := "no chip" |}, w) in
  let blank := {| device := ""; success := false; status := "" |} in
  let w := {| samples := repeat {| at_ms := 0; select := false |} 39;
              display := []; serial := [Println "Ready"] |} in
  let st' :=
    match setup_tests 20 ok ok bad ok ok ok ok ok ok ok ok ok ok id id
            (initial_state blank w) with
    | Done (_, s) => s
    | _ => initial_state blank w
    end in
  lines_from "" (serial (hw st'))
  = lines_from "" (serial w)
    ++ ["Testing started."]
    ++ (test_line <$> take 13 (test_results st'))
    ++ [""]
    ++ report_lines (take 13 (test_results st')) /\
  unfinished "" (serial (hw st')) = "".
Proof.
  intros ok bad blank w st'.
  apply (setup_tests_transcript 20 ok ok bad ok ok ok ok ok ok ok ok
           ok ok id id blank w st').
  - reflexivity.
  - repeat constructor.
  - intros w0. reflexivity.
  - intros w0. reflexivity.
  - vm_compute. reflexivity.
Defined.
